(** * Token issuance and rotation: the [AuthController] of american-elite

    A shallow embedding of [src/controller/auth-controller.ts].  Every
    handler of the controller is a small effectful program: each method
    call on an injected collaborator (user service, password service,
    image storage, token service, logger) or on the Express response is
    one node of the program, in source order.  Nodes written with
    [await] are the suspension points of the [async] handlers.

    The programs are given meaning by an interpreter over a world made of
    the user directory, the refresh-token store and the log, together
    with the response under construction.  The interpreter also records
    the trace of calls, so that ordering properties can be stated.  A
    small scheduler resumes two requests in turn at their suspension
    points, for the properties of requests in flight together. *)

From stdpp Require Import gmap strings list pretty relations.

Local Open Scope string_scope.
Local Open Scope Z_scope.

(** * Data model *)

(** A user document.  [user_id] is Mongoose's string view of [_id]; the
    JSON rendering of [_id] is that same string. *)
Record User := mkUser {
  user_id : string;
  user_userName : string;
  user_email : string;
  user_password : string;
  user_bio : option string;
  user_profileImage : string
}.

(** The argument of [userService.createUser]. *)
Record UserData := mkUserData {
  ud_userName : string;
  ud_email : string;
  ud_password : string;
  ud_bio : option string;
  ud_profileImage : string
}.

(** A persisted refresh-token record. *)
Record RefreshToken := mkRefreshToken {
  rt_id : string;
  rt_user : string;
  rt_expiresAt : Z
}.

(** [JwtPayload], restricted to the claims the controller writes. *)
Record JwtPayload := mkPayload {
  jwt_sub : string;
  jwt_email : string;
  jwt_id : option string
}.

(** [AuthRequest.auth]: the identity attached by the token middleware.
    [id] is optional in the type; the controller reads it as [auth.id!]. *)
Record Auth := mkAuth {
  auth_sub : string;
  auth_email : string;
  auth_id : option string
}.

Record ValidationError := mkValidationError { msg : string }.

Record CreateUserBody := mkCreateUserBody {
  cu_userName : string;
  cu_email : string;
  cu_password : string;
  cu_bio : option string
}.

(** [CreateUserRequest]: the validation outcome that [validationResult]
    reads off the request, the body, and [req.file?.path]. *)
Record CreateUserRequest := mkCreateUserRequest {
  cur_validation : list ValidationError;
  cur_body : CreateUserBody;
  cur_file_path : option string
}.

Record LoginBody := mkLoginBody {
  lb_email : string;
  lb_password : string
}.

Record LoginRequest := mkLoginRequest {
  lr_validation : list ValidationError;
  lr_body : LoginBody
}.

(** The result of [imageStorage.upload]. *)
Record UploadResult := mkUploadResult { url : option string }.

(** The options object of [res.cookie]; [maxAge] is in milliseconds. *)
Record CookieOptions := mkCookieOptions {
  domain : string;
  sameSite : string;
  maxAge : Z;
  httpOnly : bool
}.

Record Cookie := mkCookie {
  cookie_name : string;
  cookie_value : string;
  cookie_options : CookieOptions
}.

(** The value of [createHttpError(status, message)]. *)
Record HttpError := mkHttpError {
  err_status : Z;
  err_message : string
}.

Definition createHttpError (status : Z) (message : string) : HttpError :=
  mkHttpError status message.

(** What the handlers pass to [res.json]. *)
Inductive Body :=
| JId (id : string)            (* { id: ... } *)
| JUser (u : option User)      (* a user document, or null *)
| JText (s : string).          (* a JSON string *)

(** The Express response as the handlers build it. *)
Record Response := mkResponse {
  resp_cookies : list Cookie;
  resp_cleared : list string;
  resp_status : Z;
  resp_body : option Body;
  resp_next : option HttpError
}.

(** A fresh response: nothing set, status 200, nothing sent. *)
Definition freshResponse : Response := mkResponse [] [] 200 None None.

Record LogEntry := mkLogEntry {
  log_message : string;
  log_meta : option string
}.

(** The state shared by all requests. *)
Record World := mkWorld {
  users : list User;
  nextUserId : N;
  refreshTokens : gmap string RefreshToken;
  nextTokenId : N;
  now : Z;
  logs : list LogEntry
}.

(** The stateless collaborators injected into the controller. *)
Record Services := mkServices {
  hashPassword : string → string;
  comparePassword : string → string → bool;
  upload : string → option UploadResult;
  generateAccessToken : JwtPayload → string;
  generateRefreshToken : JwtPayload → string
}.

(** * Collaborators with state *)

(** Modelled from the spec: the user directory ([UserService], not part of
    the sources).  [createUser(fields) -> User] stores a new user under a
    newly allocated id; [findByEmail] and [findById] return the stored
    user or null.  This is the call that returns: it stores the user
    whatever the directory already holds.  A directory that refuses a
    user, for an email it already has or for any other reason, rejects
    the awaited call instead; those runs are the ones of [runThrowing]. *)
Definition createUser (d : UserData) (w : World) : World * User :=
  let u := mkUser (pretty (nextUserId w)) (ud_userName d) (ud_email d)
                  (ud_password d) (ud_bio d) (ud_profileImage d) in
  (mkWorld (users w ++ [u]) (N.succ (nextUserId w)) (refreshTokens w)
           (nextTokenId w) (now w) (logs w), u).

Definition findByEmail (e : string) (w : World) : option User :=
  List.find (λ u, bool_decide (user_email u = e)) (users w).

Definition findById (id : string) (w : World) : option User :=
  List.find (λ u, bool_decide (user_id u = id)) (users w).

(** The fixed lifetime of a refresh-token record: one year, in ms. *)
Definition refreshTTL : Z := 1000 * 60 * 60 * 24 * 365.

(** Modelled from the spec: the refresh-token store behind
    [JwtTokenService] (not part of the sources).  [create] "allocates a
    new unique id, sets expiry = now + TTL, persists, returns the record";
    ids come from a counter and are never reused.  [deleteById] is
    idempotent: deleting an absent id is not an error. *)
Definition persistRefreshToken (u : User) (w : World) : World * RefreshToken :=
  let r := mkRefreshToken (pretty (nextTokenId w)) (user_id u)
                          (now w + refreshTTL) in
  (mkWorld (users w) (nextUserId w) (<[rt_id r := r]> (refreshTokens w))
           (N.succ (nextTokenId w)) (now w) (logs w), r).

Definition deleteRefreshToken (id : option string) (w : World) : World :=
  match id with
  | Some i =>
      mkWorld (users w) (nextUserId w) (delete i (refreshTokens w))
              (nextTokenId w) (now w) (logs w)
  | None => w
  end.

Definition findRefreshToken (id : string) (w : World) : option RefreshToken :=
  refreshTokens w !! id.

(** Modelled from the spec: the logger, "fire-and-forget"; the entries
    are kept in order. *)
Definition logInfo (m : string) (meta : option string) (w : World) : World :=
  mkWorld (users w) (nextUserId w) (refreshTokens w) (nextTokenId w) (now w)
          (logs w ++ [mkLogEntry m meta]).

(** * The Express response *)

Definition resCookie (c : Cookie) (r : Response) : Response :=
  mkResponse (resp_cookies r ++ [c]) (resp_cleared r) (resp_status r)
             (resp_body r) (resp_next r).

Definition resClearCookie (n : string) (r : Response) : Response :=
  mkResponse (resp_cookies r) (resp_cleared r ++ [n]) (resp_status r)
             (resp_body r) (resp_next r).

Definition resStatus (c : Z) (r : Response) : Response :=
  mkResponse (resp_cookies r) (resp_cleared r) c (resp_body r) (resp_next r).

Definition resJson (b : Body) (r : Response) : Response :=
  mkResponse (resp_cookies r) (resp_cleared r) (resp_status r) (Some b)
             (resp_next r).

Definition resNext (e : HttpError) (r : Response) : Response :=
  mkResponse (resp_cookies r) (resp_cleared r) (resp_status r) (resp_body r)
             (Some e).

(** * Handler programs *)

(** One constructor per method the controller calls, and one for the
    store lookup of the token check in front of it. *)
Inductive Eff : Type → Type :=
| HashPassword (password : string) : Eff string
| ComparePassword (password hashed : string) : Eff bool
| Upload (path : string) : Eff (option UploadResult)
| CreateUser (d : UserData) : Eff User
| FindByEmail (e : string) : Eff (option User)
| FindById (id : string) : Eff (option User)
| GenerateAccessToken (p : JwtPayload) : Eff string
| GenerateRefreshToken (p : JwtPayload) : Eff string
| PersistRefreshToken (u : User) : Eff RefreshToken
| DeleteRefreshToken (id : option string) : Eff unit
| FindRefreshToken (id : string) : Eff (option RefreshToken)
| LoggerInfo (m : string) (meta : option string) : Eff unit
| ResCookie (name value : string) (o : CookieOptions) : Eff unit
| ResClearCookie (name : string) : Eff unit
| ResStatus (code : Z) : Eff unit
| ResJson (b : Body) : Eff unit
| Next (e : HttpError) : Eff unit.

(** A handler body: [Call] is a plain call, [Await] an awaited one. *)
Inductive Prog (A : Type) : Type :=
| Ret (a : A)
| Call {X : Type} (e : Eff X) (k : X → Prog A)
| Await {X : Type} (e : Eff X) (k : X → Prog A).

Arguments Ret {A} a.
Arguments Call {A X} e k.
Arguments Await {A X} e k.

Fixpoint bind {A B} (p : Prog A) (f : A → Prog B) : Prog B :=
  match p with
  | Ret a => f a
  | Call e k => Call e (λ x, bind (k x) f)
  | Await e k => Await e (λ x, bind (k x) f)
  end.

Declare Scope prog_scope.
Delimit Scope prog_scope with prog.
Bind Scope prog_scope with Prog.

Notation "x <- 'await' e ;; k" := (Await e (λ x, k%prog))
  (at level 100, e at next level, k at level 200, right associativity,
   format "'[v' x  <-  'await'  e  ;;  '/' k ']'") : prog_scope.
Notation "'await' e ;; k" := (Await e (λ _, k%prog))
  (at level 100, e at next level, k at level 200, right associativity,
   format "'[v' 'await'  e  ;;  '/' k ']'") : prog_scope.
Notation "x <- 'call' e ;; k" := (Call e (λ x, k%prog))
  (at level 100, e at next level, k at level 200, right associativity,
   format "'[v' x  <-  'call'  e  ;;  '/' k ']'") : prog_scope.
Notation "'call' e ;; k" := (Call e (λ _, k%prog))
  (at level 100, e at next level, k at level 200, right associativity,
   format "'[v' 'call'  e  ;;  '/' k ']'") : prog_scope.
Notation "'exec' p ;; k" := (bind p (λ _, k%prog))
  (at level 100, p at next level, k at level 200, right associativity,
   format "'[v' 'exec'  p  ;;  '/' k ']'") : prog_scope.

(** A [string | undefined] value on the branch where it is truthy:
    defined and not the empty string. *)
Definition truthy (s : option string) : option string :=
  match s with
  | Some s => if bool_decide (s = "") then None else Some s
  | None => None
  end.

(** [String(x)] on a value that is already a string. *)
Definition toStr (s : string) : string := s.

(** * The controller *)

Module AuthController.

Definition setCookies (accessToken refreshToken : string) : Prog unit :=
  (call ResCookie "accessToken" accessToken
     {| domain := "localhost";
        sameSite := "strict";
        maxAge := 1000 * 60 * 60;
        httpOnly := true |} ;;
   call ResCookie "refreshToken" refreshToken
     {| domain := "localhost";
        sameSite := "strict";
        maxAge := 1000 * 60 * 60 * 24 * 365;
        httpOnly := true |} ;;
   Ret tt)%prog.

Definition register (req : CreateUserRequest) : Prog unit :=
  match cur_validation req with
  | e :: _ => (call Next (createHttpError 400 (msg e)) ;; Ret tt)%prog
  | [] =>
    let userName := cu_userName (cur_body req) in
    let email := cu_email (cur_body req) in
    let password := cu_password (cur_body req) in
    let bio := cu_bio (cur_body req) in
    (hashedPassword <- await HashPassword password ;;
     match truthy (cur_file_path req) with
     | None =>
       call Next (createHttpError 400 "Please Upload Image") ;; Ret tt
     | Some profileImageLocalPath =>
       profileImageLink <- await Upload profileImageLocalPath ;;
       match truthy (profileImageLink ≫= url) with
       | None =>
         call Next (createHttpError 500 "Failed to upload image") ;; Ret tt
       | Some profileImageUrl =>
         user <- await CreateUser
           {| ud_userName := userName;
              ud_email := email;
              ud_password := hashedPassword;
              ud_bio := bio;
              ud_profileImage := profileImageUrl |} ;;
         let payload :=
           {| jwt_sub := toStr (user_id user);
              jwt_email := user_email user;
              jwt_id := None |} in
         accessToken <- call GenerateAccessToken payload ;;
         newRefreshToken <- await PersistRefreshToken user ;;
         refreshToken <- call GenerateRefreshToken
           {| jwt_sub := jwt_sub payload;
              jwt_email := jwt_email payload;
              jwt_id := Some (toStr (rt_id newRefreshToken)) |} ;;
         exec setCookies accessToken refreshToken ;;
         call ResStatus 201 ;;
         call ResJson (JId (user_id user)) ;;
         Ret tt
       end
     end)%prog
  end.

Definition login (req : LoginRequest) : Prog unit :=
  match lr_validation req with
  | e :: _ => (call Next (createHttpError 400 (msg e)) ;; Ret tt)%prog
  | [] =>
    let email := lb_email (lr_body req) in
    let password := lb_password (lr_body req) in
    (found <- await FindByEmail email ;;
     match found with
     | None =>
       let error := createHttpError 400 "Email and password not match!" in
       call Next error ;; Ret tt
     | Some user =>
       isPasswordMatch <- await ComparePassword password (user_password user) ;;
       if negb isPasswordMatch then
         let error := createHttpError 400 "Email and password not match!" in
         call Next error ;; Ret tt
       else
         let payload :=
           {| jwt_sub := toStr (user_id user);
              jwt_email := user_email user;
              jwt_id := None |} in
         accessToken <- call GenerateAccessToken payload ;;
         newRefreshToken <- await PersistRefreshToken user ;;
         refreshToken <- call GenerateRefreshToken
           {| jwt_sub := jwt_sub payload;
              jwt_email := jwt_email payload;
              jwt_id := Some (toStr (rt_id newRefreshToken)) |} ;;
         exec setCookies accessToken refreshToken ;;
         call LoggerInfo "User hasb been logged in successfully"
                         (Some (user_id user)) ;;
         call ResStatus 200 ;;
         call ResJson (JId (user_id user)) ;;
         Ret tt
     end)%prog
  end.

Definition self (auth : Auth) : Prog unit :=
  (user <- await FindById (auth_sub auth) ;;
   call ResJson (JUser user) ;;
   Ret tt)%prog.

Definition refreshTokenGenerate (auth : Auth) : Prog unit :=
  let payload :=
    {| jwt_sub := auth_sub auth;
       jwt_email := auth_email auth;
       jwt_id := None |} in
  (accessToken <- call GenerateAccessToken payload ;;
   found <- await FindById (auth_sub auth) ;;
   match found with
   | None =>
     let error := createHttpError 400 "User with token could not found" in
     call Next error ;; Ret tt
   | Some user =>
     newRefreshToken <- await PersistRefreshToken user ;;
     await DeleteRefreshToken (auth_id auth) ;;
     refreshToken <- call GenerateRefreshToken
       {| jwt_sub := jwt_sub payload;
          jwt_email := jwt_email payload;
          jwt_id := Some (toStr (rt_id newRefreshToken)) |} ;;
     exec setCookies accessToken refreshToken ;;
     call LoggerInfo "new refresh token generated for"
                     (Some (auth_sub auth)) ;;
     call ResJson (JText "new refresh token generateds") ;;
     Ret tt
   end)%prog.

Definition logout (auth : Auth) : Prog unit :=
  (await DeleteRefreshToken (auth_id auth) ;;
   call LoggerInfo "Refresh token has been deleted" (auth_id auth) ;;
   call ResClearCookie "accessToken" ;;
   call ResClearCookie "refreshToken" ;;
   call ResJson (JText "Successfully logged out") ;;
   Ret tt)%prog.

End AuthController.

(** * Running a handler *)

(** One performed call together with what it returned. *)
Inductive Event :=
| Ev {X : Type} (e : Eff X) (x : X).

Record Outcome := mkOutcome {
  out_world : World;
  out_resp : Response;
  out_trace : list Event
}.

(** The meaning of one call that returns: its effect on the shared world
    and on the response of the request, and the value handed back to the
    handler. *)
Definition perform (svc : Services) {X} (e : Eff X) (w : World) (r : Response)
  : World * Response * X :=
  match e in Eff X return World * Response * X with
  | HashPassword p => (w, r, hashPassword svc p)
  | ComparePassword p h => (w, r, comparePassword svc p h)
  | Upload path => (w, r, upload svc path)
  | CreateUser d => let wu := createUser d w in (wu.1, r, wu.2)
  | FindByEmail e => (w, r, findByEmail e w)
  | FindById i => (w, r, findById i w)
  | GenerateAccessToken p => (w, r, generateAccessToken svc p)
  | GenerateRefreshToken p => (w, r, generateRefreshToken svc p)
  | PersistRefreshToken u =>
      let wt := persistRefreshToken u w in (wt.1, r, wt.2)
  | DeleteRefreshToken i => (deleteRefreshToken i w, r, tt)
  | FindRefreshToken i => (w, r, findRefreshToken i w)
  | LoggerInfo m meta => (logInfo m meta w, r, tt)
  | ResCookie n v o => (w, resCookie (mkCookie n v o) r, tt)
  | ResClearCookie n => (w, resClearCookie n r, tt)
  | ResStatus c => (w, resStatus c r, tt)
  | ResJson b => (w, resJson b r, tt)
  | Next err => (w, resNext err r, tt)
  end.

(** Run a handler body to its end, from world [w] and response [r], when
    every call returns; the runs in which a call to a collaborator
    throws, or an awaited promise rejects, are those of [runThrowing]. *)
Fixpoint runProg (svc : Services) (p : Prog unit) (w : World) (r : Response)
  : Outcome :=
  match p with
  | Ret _ => mkOutcome w r []
  | Call e k =>
      let s := perform svc e w r in
      let o := runProg svc (k s.2) s.1.1 s.1.2 in
      mkOutcome (out_world o) (out_resp o) (Ev e s.2 :: out_trace o)
  | Await e k =>
      let s := perform svc e w r in
      let o := runProg svc (k s.2) s.1.1 s.1.2 in
      mkOutcome (out_world o) (out_resp o) (Ev e s.2 :: out_trace o)
  end.

(** The requests the controller serves. *)
Inductive Request :=
| Register (req : CreateUserRequest)
| Login (req : LoginRequest)
| Self (auth : Auth)
| Refresh (auth : Auth)
| Logout (auth : Auth).

Definition handler (q : Request) : Prog unit :=
  match q with
  | Register req => AuthController.register req
  | Login req => AuthController.login req
  | Self auth => AuthController.self auth
  | Refresh auth => AuthController.refreshTokenGenerate auth
  | Logout auth => AuthController.logout auth
  end.

(** Serve one request on a fresh response. *)
Definition serve (svc : Services) (q : Request) (w : World) : Outcome :=
  runProg svc (handler q) w freshResponse.

(** Serve requests one after the other. *)
Definition serveAll (svc : Services) (qs : list Request) (w : World) : World :=
  foldl (λ w q, out_world (serve svc q w)) w qs.

(** A request has succeeded when a body was sent and no error was passed
    to [next]. *)
Definition succeeded (r : Response) : bool :=
  match resp_next r, resp_body r with
  | None, Some _ => true
  | _, _ => false
  end.

(** Requests that open or renew a session. *)
Definition issuesSession (q : Request) : bool :=
  match q with
  | Register _ | Login _ | Refresh _ => true
  | Self _ | Logout _ => false
  end.

(** [e1] was performed strictly before [e2]. *)
Definition precedes (e1 e2 : Event) (t : list Event) : Prop :=
  ∃ t1 t2 t3 : list Event, t = (t1 ++ e1 :: t2 ++ e2 :: t3)%list.

(** The refresh-token records a run has persisted, in order. *)
Definition persistedBy (ev : Event) : list RefreshToken :=
  match ev with
  | Ev e x =>
      match e in Eff X return X → list RefreshToken with
      | PersistRefreshToken _ => λ r, [r]
      | _ => λ _, []
      end x
  end.

Definition persisted (t : list Event) : list RefreshToken :=
  concat (map persistedBy t).

(** The passwords a run has asked the password service to hash. *)
Definition hashedBy (ev : Event) : list string :=
  match ev with
  | Ev e x =>
      match e in Eff X return list string with
      | HashPassword p => [p]
      | _ => []
      end
  end.

Definition hashed (t : list Event) : list string :=
  concat (map hashedBy t).

(** The value a response sets for the cookie called [n]. *)
Definition cookieValue (n : string) (r : Response) : option string :=
  cookie_value <$>
    List.find (λ c, bool_decide (cookie_name c = n)) (rev (resp_cookies r)).

(** The two cookies that [setCookies] puts on the response. *)
Definition sessionCookies (accessToken refreshToken : string) : list Cookie :=
  [ mkCookie "accessToken" accessToken
      (mkCookieOptions "localhost" "strict" (3600 * 1000) true);
    mkCookie "refreshToken" refreshToken
      (mkCookieOptions "localhost" "strict" (31536000 * 1000) true) ].

(** The claims signed into the two tokens of a session. *)
Definition accessClaims (sub email : string) : JwtPayload :=
  mkPayload sub email None.

Definition refreshClaims (sub email : string) (r : RefreshToken) : JwtPayload :=
  mkPayload sub email (Some (rt_id r)).

(** The user data that [register] hands to the directory, for the url
    that the image storage returned. *)
Definition registerData (svc : Services) (req : CreateUserRequest)
    (profileImageUrl : string) : UserData :=
  {| ud_userName := cu_userName (cur_body req);
     ud_email := cu_email (cur_body req);
     ud_password := hashPassword svc (cu_password (cur_body req));
     ud_bio := cu_bio (cur_body req);
     ud_profileImage := profileImageUrl |}.

(** The login request that repeats the credentials of a registration. *)
Definition loginOf (req : CreateUserRequest) : LoginRequest :=
  mkLoginRequest []
    (mkLoginBody (cu_email (cur_body req)) (cu_password (cur_body req))).

(** The store only holds ids that its counter has already handed out,
    each record filed under its own id. *)
Definition issued (w : World) (id : string) : Prop :=
  ∃ n : N, (n < nextTokenId w)%N ∧ id = pretty n.

Definition wfStore (w : World) : Prop :=
  ∀ id r, refreshTokens w !! id = Some r → rt_id r = id ∧ issued w id.

(** * Requests in flight together *)

(** Modelled from the spec: the refresh-token check of the transport
    adapter (a middleware in front of the controller, not part of the
    sources).  "A refresh token is valid only if ... the referenced
    RefreshTokenRecord still exists in the store"; an invalid token is
    "translated by the Transport Adapter into an authentication-required
    response before reaching the Session Manager". *)
Definition tokenInvalid : HttpError := createHttpError 401 "TokenInvalid".

Definition refreshRoute (auth : Auth) : Prog unit :=
  match auth_id auth with
  | None => (call Next tokenInvalid ;; Ret tt)%prog
  | Some id =>
    (found <- await FindRefreshToken id ;;
     match found with
     | None => call Next tokenInvalid ;; Ret tt
     | Some _ => AuthController.refreshTokenGenerate auth
     end)%prog
  end.

(** A request being served: what is left of its handler, and its
    response so far. *)
Record Thread := mkThread {
  th_prog : Prog unit;
  th_resp : Response
}.

Definition finished (t : Thread) : bool :=
  match th_prog t with
  | Ret _ => true
  | _ => false
  end.

(** Two requests sharing the world. *)
Record Config := mkConfig {
  cf_world : World;
  cf_left : Thread;
  cf_right : Thread
}.

Definition settled (c : Config) : bool :=
  finished (cf_left c) && finished (cf_right c).

(** A handler runs without interruption up to its next [await]; the
    awaited call itself is atomic, and the handler is then suspended. *)
Fixpoint advance (svc : Services) (p : Prog unit) (w : World) (r : Response)
  : World * Thread :=
  match p with
  | Ret _ => (w, mkThread p r)
  | Call e k =>
      let s := perform svc e w r in advance svc (k s.2) s.1.1 s.1.2
  | Await e k =>
      let s := perform svc e w r in (s.1.1, mkThread (k s.2) s.1.2)
  end.

Definition stepLeft (svc : Services) (c : Config) : Config :=
  let wt := advance svc (th_prog (cf_left c)) (cf_world c)
                    (th_resp (cf_left c)) in
  mkConfig wt.1 wt.2 (cf_right c).

Definition stepRight (svc : Services) (c : Config) : Config :=
  let wt := advance svc (th_prog (cf_right c)) (cf_world c)
                    (th_resp (cf_right c)) in
  mkConfig wt.1 (cf_left c) wt.2.

(** The event loop resumes either unfinished request. *)
Inductive step (svc : Services) : relation Config :=
| step_left c : finished (cf_left c) = false → step svc c (stepLeft svc c)
| step_right c : finished (cf_right c) = false → step svc c (stepRight svc c).

(** Follow a schedule: [true] resumes the left request, [false] the
    right one. *)
Definition schedule (svc : Services) (sch : list bool) (c : Config) : Config :=
  foldl (λ c side, if side : bool then stepLeft svc c else stepRight svc c)
        c sch.

(** The schedule only resumes requests that have not finished. *)
Fixpoint runnable (svc : Services) (sch : list bool) (c : Config) : bool :=
  match sch with
  | [] => true
  | side :: sch =>
      negb (finished (if side then cf_left c else cf_right c)) &&
      runnable svc sch (if side then stepLeft svc c else stepRight svc c)
  end.

(** Two requests entering the same route with the same identity. *)
Definition race (route : Auth → Prog unit) (auth : Auth) (w : World)
  : Config :=
  mkConfig w (mkThread (route auth) freshResponse)
             (mkThread (route auth) freshResponse).

(** In every complete run of the race, one request succeeds and the other
    does not. *)
Definition oneWinner (svc : Services) (auth : Auth) (w : World) : Prop :=
  ∀ c, rtc (step svc) (race refreshRoute auth w) c → settled c = true →
       xorb (succeeded (th_resp (cf_left c)))
            (succeeded (th_resp (cf_right c))) = true.

(** Both token checks first, then the two handlers. *)
Definition checksFirst : list bool :=
  [true; false; true; true; true; true; false; false; false; false].

(** The left request from start to end, then the right one. *)
Definition oneAfterTheOther : list bool :=
  [true; true; true; true; true; false; false].

(** The two ways a refresh request through [refreshRoute] can end. *)
Definition rejected : Response := mkResponse [] [] 200 None (Some tokenInvalid).

Definition renewed (svc : Services) (auth : Auth) (r : RefreshToken)
  : Response :=
  mkResponse
    (sessionCookies
       (generateAccessToken svc
          (accessClaims (auth_sub auth) (auth_email auth)))
       (generateRefreshToken svc
          (refreshClaims (auth_sub auth) (auth_email auth) r)))
    [] 200 (Some (JText "new refresh token generateds")) None.

(** The record [new] was not in the store [w] and is in the store [W]. *)
Definition issuedIn (w W : World) (new : RefreshToken) : Prop :=
  findRefreshToken (rt_id new) w = None ∧
  findRefreshToken (rt_id new) W = Some new.

(** ** Program points of [refreshTokenGenerate]

    What is left of the handler after each of its awaits. *)
Definition replyTail (auth : Auth) (accessToken : string) (r : RefreshToken)
  : Prog unit :=
  (refreshToken <- call GenerateRefreshToken
     {| jwt_sub := auth_sub auth;
        jwt_email := auth_email auth;
        jwt_id := Some (toStr (rt_id r)) |} ;;
   exec AuthController.setCookies accessToken refreshToken ;;
   call LoggerInfo "new refresh token generated for" (Some (auth_sub auth)) ;;
   call ResJson (JText "new refresh token generateds") ;;
   Ret tt)%prog.

Definition deleteTail (auth : Auth) (accessToken : string) (r : RefreshToken)
  : Prog unit :=
  (await DeleteRefreshToken (auth_id auth) ;;
   replyTail auth accessToken r)%prog.

Definition persistTail (auth : Auth) (accessToken : string) (user : User)
  : Prog unit :=
  (newRefreshToken <- await PersistRefreshToken user ;;
   deleteTail auth accessToken newRefreshToken)%prog.

Definition refusal : Prog unit := (call Next tokenInvalid ;; Ret tt)%prog.

(** Where a refresh request stands; [i] numbers the record it has
    persisted among those persisted since the race began. *)
Inductive Stage :=
| AtGuard
| AtHandler
| Refused
| AtPersist
| AtDelete (i : N)
| AtReply (i : N)
| Renewed (i : N)
| Rejected.

Definition holds (s : Stage) : option N :=
  match s with
  | AtDelete i | AtReply i | Renewed i => Some i
  | _ => None
  end.

Definition deleted (s : Stage) : bool :=
  match s with
  | AtReply _ | Renewed _ => true
  | _ => false
  end.

Definition failed (s : Stage) : bool :=
  match s with
  | Refused | Rejected => true
  | _ => false
  end.

Definition persists (s : Stage) : N :=
  match holds s with Some _ => 1 | None => 0 end.

Definition stageFinished (s : Stage) : bool :=
  match s with
  | Renewed _ | Rejected => true
  | _ => false
  end.

(** The stage after one resumption, after [k] persists so far and with
    the old record deleted or not. *)
Definition nextStage (k : N) (del : bool) (s : Stage) : N * Stage :=
  match s with
  | AtGuard => (k, if del then Refused else AtHandler)
  | AtHandler => (k, AtPersist)
  | Refused => (k, Rejected)
  | AtPersist => ((k + 1)%N, AtDelete k)
  | AtDelete i => (k, AtReply i)
  | AtReply i => (k, Renewed i)
  | Renewed i => (k, Renewed i)
  | Rejected => (k, Rejected)
  end.

(** Follow a schedule on stages alone; [None] when it resumes a request
    that has finished. *)
Fixpoint stageSchedule (sch : list bool) (st : N * Stage * Stage)
  : option (N * Stage * Stage) :=
  match sch with
  | [] => Some st
  | side :: sch =>
      let '(k, a, b) := st in
      let del := deleted a || deleted b in
      if side then
        if stageFinished a then None
        else let n := nextStage k del a in stageSchedule sch (n.1, n.2, b)
      else
        if stageFinished b then None
        else let n := nextStage k del b in stageSchedule sch (n.1, a, n.2)
  end.

(** The stages two racing requests can be in together, after [k]
    persists. *)
Record stagesOk (k : N) (a b : Stage) : Prop := {
  so_count : k = (persists a + persists b)%N;
  so_failed_l : failed a = true → deleted b = true;
  so_failed_r : failed b = true → deleted a = true;
  so_holds_l : ∀ i, holds a = Some i → (i < k)%N;
  so_holds_r : ∀ i, holds b = Some i → (i < k)%N;
  so_apart : ∀ i j, holds a = Some i → holds b = Some j → i ≠ j
}.

(** The setting of a race: the collaborators, the world it starts in,
    the identity both requests present, the id and record of the
    presented refresh token, and the user the identity names. *)
Record RaceSetup := mkRace {
  race_svc : Services;
  race_world : World;
  race_auth : Auth;
  race_old : string;
  race_rec : RefreshToken;
  race_user : User
}.

(** The access token that both requests sign. *)
Definition raceAccessToken (rs : RaceSetup) : string :=
  generateAccessToken (race_svc rs)
    (accessClaims (auth_sub (race_auth rs)) (auth_email (race_auth rs))).

(** The record that the [i]-th persist of the race creates. *)
Definition nthRecord (rs : RaceSetup) (i : N) : RefreshToken :=
  mkRefreshToken (pretty (nextTokenId (race_world rs) + i)%N)
                 (user_id (race_user rs))
                 (now (race_world rs) + refreshTTL).

(** The request as it is in each stage. *)
Definition stageThread (rs : RaceSetup) (s : Stage) : Thread :=
  let auth := race_auth rs in
  let accessToken := raceAccessToken rs in
  match s with
  | AtGuard => mkThread (refreshRoute auth) freshResponse
  | AtHandler =>
      mkThread (AuthController.refreshTokenGenerate auth) freshResponse
  | Refused => mkThread refusal freshResponse
  | AtPersist =>
      mkThread (persistTail auth accessToken (race_user rs)) freshResponse
  | AtDelete i =>
      mkThread (deleteTail auth accessToken (nthRecord rs i)) freshResponse
  | AtReply i =>
      mkThread (replyTail auth accessToken (nthRecord rs i)) freshResponse
  | Renewed i =>
      mkThread (Ret tt) (renewed (race_svc rs) auth (nthRecord rs i))
  | Rejected => mkThread (Ret tt) rejected
  end.

(** What the world looks like after [k] persists, with the old record
    deleted or not. *)
Record worldAt (rs : RaceSetup) (k : N) (del : bool) (W : World) : Prop := {
  wa_next : nextTokenId W = (nextTokenId (race_world rs) + k)%N;
  wa_now : now W = now (race_world rs);
  wa_users : users W = users (race_world rs);
  wa_old : findRefreshToken (race_old rs) W =
           if del then None else Some (race_rec rs);
  wa_new : ∀ i, findRefreshToken
                  (pretty (nextTokenId (race_world rs) + i)%N) W =
                if (i <? k)%N then Some (nthRecord rs i) else None;
  wa_rest : ∀ j, j ≠ race_old rs →
                 (∀ i, j ≠ pretty (nextTokenId (race_world rs) + i)%N) →
                 findRefreshToken j W = findRefreshToken j (race_world rs)
}.

(** The requests in [c] are in stages [a] and [b], after [k] persists. *)
Definition tracks (rs : RaceSetup) (k : N) (a b : Stage) (c : Config) : Prop :=
  cf_left c = stageThread rs a ∧
  cf_right c = stageThread rs b ∧
  worldAt rs k (deleted a || deleted b) (cf_world c) ∧
  stagesOk k a b.

(** The invariant of the race. *)
Definition raceInv (rs : RaceSetup) (c : Config) : Prop :=
  ∃ k a b, tracks rs k a b c.

(** * A concrete system, for running the model *)

(** The empty system. *)
Definition emptyWorld (t : Z) : World := mkWorld [] 0 ∅ 0 t [].

Definition sampleServices : Services :=
  {| hashPassword := λ p, "hash:" +:+ p;
     comparePassword := λ p h, bool_decide (h = "hash:" +:+ p);
     upload := λ path, Some (mkUploadResult (Some ("https://img/" +:+ path)));
     generateAccessToken := λ p, "access:" +:+ jwt_sub p;
     generateRefreshToken :=
       λ p, "refresh:" +:+ jwt_sub p +:+ ":" +:+ default "" (jwt_id p) |}.

Definition aliceRequest : CreateUserRequest :=
  mkCreateUserRequest []
    (mkCreateUserBody "alice" "alice@x.com" "secret" None) (Some "/tmp/a.png").

Definition alice : User :=
  mkUser "0" "alice" "alice@x.com" "hash:secret" None "https://img//tmp/a.png".

Definition aliceLogin : LoginRequest := loginOf aliceRequest.

(** The world after alice has registered at time 0. *)
Definition aliceWorld : World :=
  out_world (serve sampleServices (Register aliceRequest) (emptyWorld 0)).

(** The identity of alice's first refresh token. *)
Definition aliceAuth : Auth := mkAuth "0" "alice@x.com" (Some "0").

Definition bobLogin : LoginRequest :=
  mkLoginRequest [] (mkLoginBody "nonexistent@x.com" "anything").

Definition aliceWrongLogin : LoginRequest :=
  mkLoginRequest [] (mkLoginBody "alice@x.com" "wrongpass").

Definition malformedRegister : CreateUserRequest :=
  mkCreateUserRequest
    [mkValidationError "Email is required!";
     mkValidationError "Password is required!"]
    (mkCreateUserBody "alice" "" "" None) (Some "/tmp/a.png").

Definition ghostAuth : Auth := mkAuth "7" "ghost@x.com" (Some "0").

(** * What a run has done, read off its trace *)

(** The bodies a run has sent with [res.json]. *)
Definition sentBy (ev : Event) : list Body :=
  match ev with
  | Ev e x =>
      match e in Eff X return list Body with
      | ResJson b => [b]
      | _ => []
      end
  end.

Definition sent (t : list Event) : list Body := concat (map sentBy t).

(** The errors a run has passed to [next]. *)
Definition passedBy (ev : Event) : list HttpError :=
  match ev with
  | Ev e x =>
      match e in Eff X return list HttpError with
      | Next err => [err]
      | _ => []
      end
  end.

Definition passed (t : list Event) : list HttpError :=
  concat (map passedBy t).

(** The claims a run has had signed into access tokens and into refresh
    tokens. *)
Definition accessSignedBy (ev : Event) : list JwtPayload :=
  match ev with
  | Ev e x =>
      match e in Eff X return list JwtPayload with
      | GenerateAccessToken p => [p]
      | _ => []
      end
  end.

Definition accessSigned (t : list Event) : list JwtPayload :=
  concat (map accessSignedBy t).

Definition refreshSignedBy (ev : Event) : list JwtPayload :=
  match ev with
  | Ev e x =>
      match e in Eff X return list JwtPayload with
      | GenerateRefreshToken p => [p]
      | _ => []
      end
  end.

Definition refreshSigned (t : list Event) : list JwtPayload :=
  concat (map refreshSignedBy t).

(** The paths handed to the image storage, and the users handed to the
    directory. *)
Definition uploadedBy (ev : Event) : list string :=
  match ev with
  | Ev e x =>
      match e in Eff X return list string with
      | Upload path => [path]
      | _ => []
      end
  end.

Definition uploaded (t : list Event) : list string :=
  concat (map uploadedBy t).

Definition createdBy (ev : Event) : list User :=
  match ev with
  | Ev e x =>
      match e in Eff X return X → list User with
      | CreateUser _ => λ u, [u]
      | _ => λ _, []
      end x
  end.

Definition created (t : list Event) : list User := concat (map createdBy t).

(** The status code of a request that succeeds. *)
Definition successStatus (q : Request) : Z :=
  match q with
  | Register _ => 201
  | _ => 200
  end.

(** The identity that a refresh token signed over [p] carries. *)
Definition identityOf (p : JwtPayload) : Auth :=
  mkAuth (jwt_sub p) (jwt_email p) (jwt_id p).

(** A refresh request through the token check, served on its own. *)
Definition serveRefreshRoute (svc : Services) (auth : Auth) (w : World)
  : Outcome :=
  runProg svc (refreshRoute auth) w freshResponse.

(** ** More of the concrete system *)

(** Collaborators whose image storage answers without a url. *)
Definition brokenStorage : Services :=
  {| hashPassword := hashPassword sampleServices;
     comparePassword := comparePassword sampleServices;
     upload := λ _, Some (mkUploadResult None);
     generateAccessToken := generateAccessToken sampleServices;
     generateRefreshToken := generateRefreshToken sampleServices |}.

(** Alice's registration without the image file. *)
Definition noImageRequest : CreateUserRequest :=
  mkCreateUserRequest []
    (mkCreateUserBody "alice" "alice@x.com" "secret" None) None.

(** The world [w] with [m] as its refresh-token store. *)
Definition withTokens (m : gmap string RefreshToken) (w : World) : World :=
  mkWorld (users w) (nextUserId w) m (nextTokenId w) (now w) (logs w).

(** The answer of a logout. *)
Definition loggedOut : Response :=
  mkResponse [] ["accessToken"; "refreshToken"] 200
             (Some (JText "Successfully logged out")) None.

(** The left logout from start to end, then the right one; and the two
    deletions first. *)
Definition logoutsInTurn : list bool := [true; true; false; false].

Definition logoutsOverlapping : list bool := [true; false; false; true].

(** The stages of a request that has passed the token check. *)
Definition pastGuard (s : Stage) : bool :=
  match s with
  | AtGuard | Refused | Rejected => false
  | _ => true
  end.

(** The invariant of a race that starts in the handler. *)
Definition handlerInv (rs : RaceSetup) (c : Config) : Prop :=
  ∃ k a b, tracks rs k a b c ∧ pastGuard a = true ∧ pastGuard b = true.

(** Every record of the store names a user of the directory. *)
Definition ownersExist (w : World) : Prop :=
  ∀ id r, findRefreshToken id w = Some r → is_Some (findById (rt_user r) w).

(** * Collaborator calls that throw *)

(** The handlers have no [try]/[catch]: when a call to a collaborator
    throws, or the promise of an awaited call rejects, the handler stops
    there and nothing after it runs.  An [Ending] is how such a run ends:
    the world it leaves, the response as far as the handler got with it,
    the calls that returned, and whether the run was cut short. *)
Record Ending := mkEnding {
  end_world : World;
  end_resp : Response;
  end_trace : list Event;
  end_thrown : bool
}.

(** The calls on the Express response and [next]; these are taken to
    return. *)
Definition onResponse {X} (e : Eff X) : bool :=
  match e with
  | ResCookie _ _ _ | ResClearCookie _ | ResStatus _ | ResJson _ | Next _ =>
      true
  | _ => false
  end.

(** [thr] numbers the collaborator call that throws among the collaborator
    calls of the run, from 0; with [None] every call returns. *)
Definition throwsNow {X} (e : Eff X) (thr : option nat) : bool :=
  if onResponse e then false
  else match thr with
       | Some O => true
       | _ => false
       end.

Definition laterThrow {X} (e : Eff X) (thr : option nat) : option nat :=
  if onResponse e then thr
  else match thr with
       | Some (S n) => Some n
       | _ => thr
       end.

(** Run a handler body in which the collaborator call number [thr]
    throws.  [applied] tells whether the collaborator had done its work
    on the world before it threw.  A directory that refuses an email it
    already holds is one such failure of [createUser]. *)
Fixpoint runThrowing (svc : Services) (thr : option nat) (applied : bool)
    (p : Prog unit) (w : World) (r : Response) : Ending :=
  match p with
  | Ret _ => mkEnding w r [] false
  | Call e k =>
      let s := perform svc e w r in
      if throwsNow e thr
      then mkEnding (if applied then s.1.1 else w) r [] true
      else
        let o := runThrowing svc (laterThrow e thr) applied (k s.2)
                             s.1.1 s.1.2 in
        mkEnding (end_world o) (end_resp o) (Ev e s.2 :: end_trace o)
                 (end_thrown o)
  | Await e k =>
      let s := perform svc e w r in
      if throwsNow e thr
      then mkEnding (if applied then s.1.1 else w) r [] true
      else
        let o := runThrowing svc (laterThrow e thr) applied (k s.2)
                             s.1.1 s.1.2 in
        mkEnding (end_world o) (end_resp o) (Ev e s.2 :: end_trace o)
                 (end_thrown o)
  end.

Definition serveThrowing (svc : Services) (thr : option nat) (applied : bool)
    (q : Request) (w : World) : Ending :=
  runThrowing svc thr applied (handler q) w freshResponse.

(** The first [k] collaborator calls of a run return. *)
Definition returnsFirst (k : nat) (thr : option nat) : bool :=
  match thr with
  | Some n => (k <=? n)%nat
  | None => true
  end.

(** ** The token check in a race *)

(** The request is about to look its record up. *)
Definition atTokenCheck (p : Prog unit) : bool :=
  match p with
  | Await e _ =>
      match e with
      | FindRefreshToken _ => true
      | _ => false
      end
  | _ => false
  end.

(** The answer of the refresh handler when the directory has no user for
    the presented identity. *)
Definition unknownUser : Response :=
  mkResponse [] [] 200 None
             (Some (createHttpError 400 "User with token could not found")).

(** The stage of one of two racing requests. *)
Definition stageOf (side : bool) (a b : Stage) : Stage :=
  if side then a else b.

Definition threadOf (side : bool) (c : Config) : Thread :=
  if side then cf_left c else cf_right c.

(** A request that has passed the token check, and one that is or will be
    refused by it. *)
Definition passedCheck (rs : RaceSetup) (side : bool) (c : Config) : Prop :=
  ∃ k a b, tracks rs k a b c ∧ pastGuard (stageOf side a b) = true.

Definition refusedByCheck (rs : RaceSetup) (side : bool) (c : Config) : Prop :=
  ∃ k a b, tracks rs k a b c ∧
           pastGuard (stageOf side a b) = false ∧
           deleted (stageOf (negb side) a b) = true.

(** What is left of a refresh request, from the token check on, when the
    directory has no user for its identity. *)
Definition unknownUserThreads (auth : Auth) : list Thread :=
  [ mkThread (refreshRoute auth) freshResponse;
    mkThread (AuthController.refreshTokenGenerate auth) freshResponse;
    mkThread
      (call Next (createHttpError 400 "User with token could not found") ;;
       Ret tt)%prog
      freshResponse;
    mkThread (Ret tt) unknownUser ].

Definition unknownUserInv (auth : Auth) (w : World) (c : Config) : Prop :=
  cf_world c = w ∧
  cf_left c ∈ unknownUserThreads auth ∧
  cf_right c ∈ unknownUserThreads auth.


#[local] Arguments pretty : simpl never.
#[local] Arguments String.append : simpl never.

(** * General facts about runs *)

Section RunFacts.

Variable svc : Services.

Lemma perform_nextTokenId {X} (e : Eff X) w r :
  (nextTokenId w ≤ nextTokenId (perform svc e w r).1.1)%N.
Proof. destruct e; simpl; try destruct id; simpl; lia. Qed.

Lemma runProg_nextTokenId p w r :
  (nextTokenId w ≤ nextTokenId (out_world (runProg svc p w r)))%N.
Proof.
  revert w r.
  induction p as [a | X e k IH | X e k IH]; intros w r; simpl;
    [lia | |];
    (etrans; [apply (perform_nextTokenId e w r) | apply IH]).
Qed.

Lemma serveAll_nextTokenId qs w :
  (nextTokenId w ≤ nextTokenId (serveAll svc qs w))%N.
Proof.
  revert w. induction qs as [| q qs IH]; intros w; simpl; [lia |].
  etrans; [apply (runProg_nextTokenId (handler q) w freshResponse) | apply IH].
Qed.

(** Users are only ever added, at the end of the directory. *)
Lemma perform_users {X} (e : Eff X) w r :
  users w `prefix_of` users (perform svc e w r).1.1.
Proof.
  destruct e; simpl; try destruct id; simpl; try reflexivity.
  by apply prefix_app_r.
Qed.

Lemma runProg_users p w r :
  users w `prefix_of` users (out_world (runProg svc p w r)).
Proof.
  revert w r.
  induction p as [a | X e k IH | X e k IH]; intros w r; simpl;
    [reflexivity | |];
    (etrans; [apply (perform_users e w r) | apply IH]).
Qed.

Lemma serveAll_users qs w : users w `prefix_of` users (serveAll svc qs w).
Proof.
  revert w. induction qs as [| q qs IH]; intros w; simpl; [reflexivity |].
  etrans; [apply (runProg_users (handler q) w freshResponse) | apply IH].
Qed.

Lemma find_prefix {A} (f : A → bool) (l l' : list A) x :
  l `prefix_of` l' → List.find f l = Some x → List.find f l' = Some x.
Proof.
  intros [k ->] Hf. induction l as [| y l IH]; simpl in *; [done |].
  destruct (f y); [done | by apply IH].
Qed.

Lemma find_app_None {A} (f : A → bool) (l : list A) x :
  List.find f l = None → f x = true → List.find f (l ++ [x]) = Some x.
Proof.
  intros Hn Hx. induction l as [| y l IH]; simpl in *; [by rewrite Hx |].
  destruct (f y); [done | by apply IH].
Qed.

Lemma findByEmail_serveAll qs w e u :
  findByEmail e w = Some u → findByEmail e (serveAll svc qs w) = Some u.
Proof. apply find_prefix, serveAll_users. Qed.

Lemma findById_sound id w u : findById id w = Some u → user_id u = id.
Proof.
  unfold findById. intros H. apply find_some in H as [_ H].
  by apply bool_decide_eq_true in H.
Qed.

(** The store invariant is kept by every call, hence by every run. *)
Lemma issued_mono w w' id :
  (nextTokenId w ≤ nextTokenId w')%N → issued w id → issued w' id.
Proof. intros Hle (n & Hn & ->). exists n. split; [lia | done]. Qed.

Lemma perform_wfStore {X} (e : Eff X) w r :
  wfStore w → wfStore (perform svc e w r).1.1.
Proof.
  intros Hwf.
  destruct e as [| | | | | | | | u | [i |] | | | | | | |]; simpl; try done.
  - intros j t. simpl. rewrite lookup_insert.
    case_decide as Hd.
    + intros [= <-]. split; [done |]. subst j.
      exists (nextTokenId w). simpl. split; [lia | done].
    + intros Hj. destruct (Hwf j t Hj) as [? ?]. split; [done |].
      eapply issued_mono; [| done]. simpl. lia.
  - intros j t. simpl.
    rewrite lookup_delete. case_decide; [done |]. apply Hwf.
Qed.

Lemma runProg_wfStore p w r :
  wfStore w → wfStore (out_world (runProg svc p w r)).
Proof.
  revert w r.
  induction p as [a | X e k IH | X e k IH]; intros w r Hwf; simpl;
    [done | |]; by apply IH, perform_wfStore.
Qed.

Lemma serveAll_wfStore qs w : wfStore w → wfStore (serveAll svc qs w).
Proof.
  revert w. induction qs as [| q qs IH]; intros w Hwf; simpl; [done |].
  by apply IH, runProg_wfStore.
Qed.

Lemma wfStore_empty t : wfStore (emptyWorld t).
Proof. intros i r. simpl. by rewrite lookup_empty. Qed.

(** An id that has been handed out differs from the next one, and the
    ids still to come are not in the store. *)
Lemma issued_fresh w id : issued w id → id ≠ pretty (nextTokenId w).
Proof.
  intros (n & Hn & ->) Heq. apply (inj pretty) in Heq. lia.
Qed.

Lemma unissued_absent w k :
  wfStore w → (nextTokenId w ≤ k)%N → findRefreshToken (pretty k) w = None.
Proof.
  intros Hwf Hk. destruct (findRefreshToken (pretty k) w) as [t |] eqn:Ht;
    [| done].
  destruct (Hwf _ _ Ht) as [_ (m & Hm & Heq%(inj pretty))]. lia.
Qed.

Lemma fresh_id_unused w :
  wfStore w → findRefreshToken (pretty (nextTokenId w)) w = None.
Proof. intros Hwf. by apply unissued_absent. Qed.

End RunFacts.

Lemma aliceWorld_wf : wfStore aliceWorld.
Proof. apply runProg_wfStore, wfStore_empty. Qed.

Lemma aliceToken_issued : issued aliceWorld "0".
Proof. exists 0%N. split; [by vm_compute | done]. Qed.

Lemma sampleServices_accept p :
  comparePassword sampleServices p (hashPassword sampleServices p) = true.
Proof. by apply bool_decide_eq_true. Qed.

(** * What each handler does on its paths *)

Section Handlers.

Variable svc : Services.

Lemma login_run w req u :
  lr_validation req = [] →
  findByEmail (lb_email (lr_body req)) w = Some u →
  comparePassword svc (lb_password (lr_body req)) (user_password u) = true →
  let a := accessClaims (user_id u) (user_email u) in
  let r := (persistRefreshToken u w).2 in
  let c := refreshClaims (user_id u) (user_email u) r in
  let m := "User hasb been logged in successfully" in
  serve svc (Login req) w =
    mkOutcome
      (logInfo m (Some (user_id u)) (persistRefreshToken u w).1)
      (mkResponse
         (sessionCookies (generateAccessToken svc a)
                         (generateRefreshToken svc c))
         [] 200 (Some (JId (user_id u))) None)
      [ Ev (FindByEmail (lb_email (lr_body req))) (Some u);
        Ev (ComparePassword (lb_password (lr_body req)) (user_password u))
           true;
        Ev (GenerateAccessToken a) (generateAccessToken svc a);
        Ev (PersistRefreshToken u) r;
        Ev (GenerateRefreshToken c) (generateRefreshToken svc c);
        Ev (ResCookie "accessToken" (generateAccessToken svc a)
              (mkCookieOptions "localhost" "strict" (3600 * 1000) true)) tt;
        Ev (ResCookie "refreshToken" (generateRefreshToken svc c)
              (mkCookieOptions "localhost" "strict" (31536000 * 1000) true))
           tt;
        Ev (LoggerInfo m (Some (user_id u))) tt;
        Ev (ResStatus 200) tt;
        Ev (ResJson (JId (user_id u))) tt ].
Proof.
  intros Hv Hu Hp. unfold serve. simpl. unfold AuthController.login.
  rewrite Hv. simpl. rewrite Hu. simpl. rewrite Hp. reflexivity.
Qed.

Lemma login_succeeded_inv w req :
  succeeded (out_resp (serve svc (Login req) w)) = true →
  ∃ u, lr_validation req = [] ∧
       findByEmail (lb_email (lr_body req)) w = Some u ∧
       comparePassword svc (lb_password (lr_body req)) (user_password u)
         = true.
Proof.
  unfold serve. simpl. unfold AuthController.login.
  destruct (lr_validation req) as [| e rest]; simpl; [| done].
  destruct (findByEmail _ w) as [u |] eqn:Hu; simpl; [| done].
  destruct (comparePassword svc _ _) eqn:Hp; simpl; [| done].
  intros _. by exists u.
Qed.

Lemma register_run w req path link :
  cur_validation req = [] →
  truthy (cur_file_path req) = Some path →
  truthy (upload svc path ≫= url) = Some link →
  let wu := createUser (registerData svc req link) w in
  let u := wu.2 in
  let a := accessClaims (user_id u) (user_email u) in
  let r := (persistRefreshToken u wu.1).2 in
  let c := refreshClaims (user_id u) (user_email u) r in
  serve svc (Register req) w =
    mkOutcome
      (persistRefreshToken u wu.1).1
      (mkResponse
         (sessionCookies (generateAccessToken svc a)
                         (generateRefreshToken svc c))
         [] 201 (Some (JId (user_id u))) None)
      [ Ev (HashPassword (cu_password (cur_body req)))
           (hashPassword svc (cu_password (cur_body req)));
        Ev (Upload path) (upload svc path);
        Ev (CreateUser (registerData svc req link)) u;
        Ev (GenerateAccessToken a) (generateAccessToken svc a);
        Ev (PersistRefreshToken u) r;
        Ev (GenerateRefreshToken c) (generateRefreshToken svc c);
        Ev (ResCookie "accessToken" (generateAccessToken svc a)
              (mkCookieOptions "localhost" "strict" (3600 * 1000) true)) tt;
        Ev (ResCookie "refreshToken" (generateRefreshToken svc c)
              (mkCookieOptions "localhost" "strict" (31536000 * 1000) true))
           tt;
        Ev (ResStatus 201) tt;
        Ev (ResJson (JId (user_id u))) tt ].
Proof.
  intros Hv Hf Hl. unfold serve. simpl. unfold AuthController.register.
  rewrite Hv. simpl. rewrite Hf. simpl. rewrite Hl. reflexivity.
Qed.

Lemma register_succeeded_inv w req :
  succeeded (out_resp (serve svc (Register req) w)) = true →
  ∃ path link,
    cur_validation req = [] ∧
    truthy (cur_file_path req) = Some path ∧
    truthy (upload svc path ≫= url) = Some link.
Proof.
  unfold serve. simpl. unfold AuthController.register.
  destruct (cur_validation req) as [| e rest]; simpl; [| done].
  destruct (truthy (cur_file_path req)) as [path |] eqn:Hf; simpl; [| done].
  destruct (truthy (upload svc path ≫= url)) as [link |] eqn:Hl; simpl;
    [| done].
  intros _. by exists path, link.
Qed.

Lemma refresh_run w auth u :
  findById (auth_sub auth) w = Some u →
  let a := accessClaims (auth_sub auth) (auth_email auth) in
  let r := (persistRefreshToken u w).2 in
  let c := refreshClaims (auth_sub auth) (auth_email auth) r in
  let m := "new refresh token generated for" in
  serve svc (Refresh auth) w =
    mkOutcome
      (logInfo m (Some (auth_sub auth))
         (deleteRefreshToken (auth_id auth) (persistRefreshToken u w).1))
      (mkResponse
         (sessionCookies (generateAccessToken svc a)
                         (generateRefreshToken svc c))
         [] 200 (Some (JText "new refresh token generateds")) None)
      [ Ev (GenerateAccessToken a) (generateAccessToken svc a);
        Ev (FindById (auth_sub auth)) (Some u);
        Ev (PersistRefreshToken u) r;
        Ev (DeleteRefreshToken (auth_id auth)) tt;
        Ev (GenerateRefreshToken c) (generateRefreshToken svc c);
        Ev (ResCookie "accessToken" (generateAccessToken svc a)
              (mkCookieOptions "localhost" "strict" (3600 * 1000) true)) tt;
        Ev (ResCookie "refreshToken" (generateRefreshToken svc c)
              (mkCookieOptions "localhost" "strict" (31536000 * 1000) true))
           tt;
        Ev (LoggerInfo m (Some (auth_sub auth))) tt;
        Ev (ResJson (JText "new refresh token generateds")) tt ].
Proof.
  intros Hu. unfold serve. simpl. rewrite Hu. reflexivity.
Qed.

Lemma refresh_missing_user_run w auth :
  findById (auth_sub auth) w = None →
  let a := accessClaims (auth_sub auth) (auth_email auth) in
  let err := createHttpError 400 "User with token could not found" in
  serve svc (Refresh auth) w =
    mkOutcome w
      (mkResponse [] [] 200 None (Some err))
      [ Ev (GenerateAccessToken a) (generateAccessToken svc a);
        Ev (FindById (auth_sub auth)) None;
        Ev (Next err) tt ].
Proof.
  intros Hu. unfold serve. simpl. rewrite Hu. reflexivity.
Qed.

Lemma refresh_succeeded_inv w auth :
  succeeded (out_resp (serve svc (Refresh auth) w)) = true →
  ∃ u, findById (auth_sub auth) w = Some u.
Proof.
  destruct (findById (auth_sub auth) w) as [u |] eqn:Hu; [by exists u |].
  by rewrite (refresh_missing_user_run w auth Hu).
Qed.

End Handlers.

(** * Rotation *)

(** C1: every successful refresh persists a new refresh-token record
    before it deletes the record named by the presented token, and that
    deletion is done before the success body is sent; afterwards the old
    id is no longer found in the store and the new id is.  The presented
    id is one that the store has handed out. *)
Theorem refresh_rotates_record (svc : Services) (w : World) (auth : Auth)
    (old : string) :
  wfStore w →
  issued w old →
  auth_id auth = Some old →
  succeeded (out_resp (serve svc (Refresh auth) w)) = true →
  let o := serve svc (Refresh auth) w in
  ∃ u new,
    findRefreshToken (rt_id new) w = None ∧
    persisted (out_trace o) = [new] ∧
    precedes (Ev (PersistRefreshToken u) new)
             (Ev (DeleteRefreshToken (Some old)) tt) (out_trace o) ∧
    precedes (Ev (DeleteRefreshToken (Some old)) tt)
             (Ev (ResJson (JText "new refresh token generateds")) tt)
             (out_trace o) ∧
    findRefreshToken old (out_world o) = None ∧
    findRefreshToken (rt_id new) (out_world o) = Some new.
Proof.
  intros Hwf Hold Hid Hok o.
  destruct (refresh_succeeded_inv svc w auth Hok) as [u Hu].
  subst o. rewrite (refresh_run svc w auth u Hu), Hid. clear Hok.
  exists u, (persistRefreshToken u w).2. simpl.
  assert (Hne : old ≠ pretty (nextTokenId w)) by by apply issued_fresh.
  split_and!.
  - by apply fresh_id_unused.
  - done.
  - eexists [_; _], [], _. reflexivity.
  - eexists [_; _; _], [_; _; _; _], []. reflexivity.
  - unfold findRefreshToken. simpl. apply lookup_delete_eq.
  - unfold findRefreshToken. simpl.
    rewrite lookup_delete_ne by done. apply lookup_insert_eq.
Qed.

Lemma refresh_rotates_record_witness :
  let o := serve sampleServices (Refresh aliceAuth) aliceWorld in
  ∃ u new,
    findRefreshToken (rt_id new) aliceWorld = None ∧
    persisted (out_trace o) = [new] ∧
    precedes (Ev (PersistRefreshToken u) new)
             (Ev (DeleteRefreshToken (Some "0")) tt) (out_trace o) ∧
    precedes (Ev (DeleteRefreshToken (Some "0")) tt)
             (Ev (ResJson (JText "new refresh token generateds")) tt)
             (out_trace o) ∧
    findRefreshToken "0" (out_world o) = None ∧
    findRefreshToken (rt_id new) (out_world o) = Some new.
Proof.
  apply (refresh_rotates_record sampleServices aliceWorld aliceAuth "0").
  - exact aliceWorld_wf.
  - exact aliceToken_issued.
  - reflexivity.
  - vm_compute. reflexivity.
Defined.

(** * Login failures *)

(** C2: a login for an email that no user has and a login for an
    existing email whose secret fails the password comparison end the
    same way: the same 400 error with the same message is passed to
    [next], and the two responses are equal in every field. *)
Theorem login_failures_indistinguishable (svc : Services) (w : World)
    (unknown wrong : LoginRequest) (u : User) :
  lr_validation unknown = [] →
  lr_validation wrong = [] →
  findByEmail (lb_email (lr_body unknown)) w = None →
  findByEmail (lb_email (lr_body wrong)) w = Some u →
  comparePassword svc (lb_password (lr_body wrong)) (user_password u) = false →
  let o1 := serve svc (Login unknown) w in
  let o2 := serve svc (Login wrong) w in
  resp_next (out_resp o1) =
    Some (createHttpError 400 "Email and password not match!") ∧
  resp_next (out_resp o2) =
    Some (createHttpError 400 "Email and password not match!") ∧
  out_resp o1 = out_resp o2 ∧
  out_world o1 = w ∧ out_world o2 = w.
Proof.
  intros Hv1 Hv2 Hnone Hsome Hcmp. unfold serve. simpl.
  unfold AuthController.login.
  rewrite Hv1, Hv2. simpl. rewrite Hnone, Hsome. simpl. rewrite Hcmp.
  simpl. done.
Qed.

Lemma login_failures_indistinguishable_witness :
  let o1 := serve sampleServices (Login bobLogin) aliceWorld in
  let o2 := serve sampleServices (Login aliceWrongLogin) aliceWorld in
  resp_next (out_resp o1) =
    Some (createHttpError 400 "Email and password not match!") ∧
  resp_next (out_resp o2) =
    Some (createHttpError 400 "Email and password not match!") ∧
  out_resp o1 = out_resp o2 ∧
  out_world o1 = aliceWorld ∧ out_world o2 = aliceWorld.
Proof.
  apply (login_failures_indistinguishable sampleServices aliceWorld
           bobLogin aliceWrongLogin alice);
    vm_compute; reflexivity.
Defined.

(** * Tokens and cookies of a new session *)

(** C3: after a successful register, login or refresh, the refresh token
    put on the response is signed over claims whose [id] is the id of the
    one record that this very call persisted, and whose [sub] and [email]
    are those of the user the call is for: the created user (register),
    the user found by email (login), the identity carried by the presented
    token, whose [sub] is the id of the user found (refresh). *)
Theorem refresh_token_names_persisted_record (svc : Services) (q : Request)
    (w : World) :
  succeeded (out_resp (serve svc q w)) = true →
  let o := serve svc q w in
  match q with
  | Register req =>
      ∃ u r, users (out_world o) = (users w ++ [u])%list ∧
             user_email u = cu_email (cur_body req) ∧
             persisted (out_trace o) = [r] ∧
             rt_user r = user_id u ∧
             findRefreshToken (rt_id r) (out_world o) = Some r ∧
             cookieValue "refreshToken" (out_resp o) =
               Some (generateRefreshToken svc
                       (mkPayload (user_id u) (user_email u) (Some (rt_id r))))
  | Login req =>
      ∃ u r, findByEmail (lb_email (lr_body req)) w = Some u ∧
             persisted (out_trace o) = [r] ∧
             rt_user r = user_id u ∧
             findRefreshToken (rt_id r) (out_world o) = Some r ∧
             cookieValue "refreshToken" (out_resp o) =
               Some (generateRefreshToken svc
                       (mkPayload (user_id u) (user_email u) (Some (rt_id r))))
  | Refresh auth =>
      ∃ u r, findById (auth_sub auth) w = Some u ∧
             user_id u = auth_sub auth ∧
             persisted (out_trace o) = [r] ∧
             rt_user r = user_id u ∧
             cookieValue "refreshToken" (out_resp o) =
               Some (generateRefreshToken svc
                       (mkPayload (auth_sub auth) (auth_email auth)
                                  (Some (rt_id r))))
  | Self _ | Logout _ => True
  end.
Proof.
  intros Hok o. subst o. destruct q as [req | req | auth | auth | auth];
    [| | done | | done].
  - destruct (register_succeeded_inv svc w req Hok)
      as (path & link & Hv & Hf & Hl).
    rewrite (register_run svc w req path link Hv Hf Hl). simpl.
    do 2 eexists. split_and!; try reflexivity.
    unfold findRefreshToken. simpl. apply lookup_insert_eq.
  - destruct (login_succeeded_inv svc w req Hok) as (u & Hv & Hu & Hp).
    rewrite (login_run svc w req u Hv Hu Hp). simpl.
    exists u. eexists. split_and!; try reflexivity; [done |].
    unfold findRefreshToken. simpl. apply lookup_insert_eq.
  - destruct (refresh_succeeded_inv svc w auth Hok) as [u Hu].
    rewrite (refresh_run svc w auth u Hu). simpl.
    exists u. eexists. split_and!; try reflexivity; [done |].
    by apply findById_sound in Hu.
Qed.

Lemma refresh_token_names_persisted_record_witness :
  let o := serve sampleServices (Login aliceLogin) aliceWorld in
  ∃ u r, findByEmail "alice@x.com" aliceWorld = Some u ∧
         persisted (out_trace o) = [r] ∧
         rt_user r = user_id u ∧
         findRefreshToken (rt_id r) (out_world o) = Some r ∧
         cookieValue "refreshToken" (out_resp o) =
           Some (generateRefreshToken sampleServices
                   (mkPayload (user_id u) (user_email u) (Some (rt_id r)))).
Proof.
  apply (refresh_token_names_persisted_record sampleServices
           (Login aliceLogin) aliceWorld).
  vm_compute. reflexivity.
Defined.

(** C5: after a successful register, login or refresh the response sets
    exactly two cookies: [accessToken] with domain, same-site strict,
    http-only and a max-age of 3600 s, and [refreshToken] with the same
    attributes and a max-age of 31536000 s (Express takes [maxAge] in
    milliseconds). *)
Theorem session_cookies_attributes (svc : Services) (q : Request) (w : World) :
  issuesSession q = true →
  succeeded (out_resp (serve svc q w)) = true →
  ∃ accessToken refreshToken,
    resp_cookies (out_resp (serve svc q w)) =
      [ {| cookie_name := "accessToken";
           cookie_value := accessToken;
           cookie_options :=
             {| domain := "localhost"; sameSite := "strict";
                maxAge := 3600 * 1000; httpOnly := true |} |};
        {| cookie_name := "refreshToken";
           cookie_value := refreshToken;
           cookie_options :=
             {| domain := "localhost"; sameSite := "strict";
                maxAge := 31536000 * 1000; httpOnly := true |} |} ].
Proof.
  intros Hq Hok. destruct q as [req | req | auth | auth | auth];
    try discriminate Hq.
  - destruct (register_succeeded_inv svc w req Hok)
      as (path & link & Hv & Hf & Hl).
    rewrite (register_run svc w req path link Hv Hf Hl). simpl.
    by do 2 eexists.
  - destruct (login_succeeded_inv svc w req Hok) as (u & Hv & Hu & Hp).
    rewrite (login_run svc w req u Hv Hu Hp). simpl. by do 2 eexists.
  - destruct (refresh_succeeded_inv svc w auth Hok) as [u Hu].
    rewrite (refresh_run svc w auth u Hu). simpl. by do 2 eexists.
Qed.

Lemma session_cookies_attributes_witness :
  ∃ accessToken refreshToken,
    resp_cookies
      (out_resp (serve sampleServices (Register aliceRequest) (emptyWorld 0))) =
      [ {| cookie_name := "accessToken";
           cookie_value := accessToken;
           cookie_options :=
             {| domain := "localhost"; sameSite := "strict";
                maxAge := 3600 * 1000; httpOnly := true |} |};
        {| cookie_name := "refreshToken";
           cookie_value := refreshToken;
           cookie_options :=
             {| domain := "localhost"; sameSite := "strict";
                maxAge := 31536000 * 1000; httpOnly := true |} |} ].
Proof.
  apply (session_cookies_attributes sampleServices (Register aliceRequest)
           (emptyWorld 0)); vm_compute; reflexivity.
Defined.

(** * Logout *)

(** C4: a logout carrying the id of a refresh-token record deletes that
    record and clears both the [accessToken] and the [refreshToken]
    cookie, all before the success body is sent; no other record of the
    store is touched. *)
Theorem logout_revokes_and_clears (svc : Services) (w : World) (auth : Auth)
    (id : string) :
  auth_id auth = Some id →
  let o := serve svc (Logout auth) w in
  let sent := Ev (ResJson (JText "Successfully logged out")) tt in
  succeeded (out_resp o) = true ∧
  findRefreshToken id (out_world o) = None ∧
  (∀ j, j ≠ id → findRefreshToken j (out_world o) = findRefreshToken j w) ∧
  resp_cleared (out_resp o) = ["accessToken"; "refreshToken"] ∧
  resp_cookies (out_resp o) = [] ∧
  precedes (Ev (DeleteRefreshToken (Some id)) tt) sent (out_trace o) ∧
  precedes (Ev (ResClearCookie "accessToken") tt) sent (out_trace o) ∧
  precedes (Ev (ResClearCookie "refreshToken") tt) sent (out_trace o).
Proof.
  intros Hid o sent. subst o sent. unfold serve. simpl. rewrite Hid.
  unfold findRefreshToken. simpl. split_and!.
  - done.
  - apply lookup_delete_eq.
  - intros j Hj. by apply lookup_delete_ne.
  - done.
  - done.
  - eexists [], [_; _; _], []. reflexivity.
  - eexists [_; _], [_], []. reflexivity.
  - eexists [_; _; _], [], []. reflexivity.
Qed.

Lemma logout_revokes_and_clears_witness :
  let o := serve sampleServices (Logout aliceAuth) aliceWorld in
  let sent := Ev (ResJson (JText "Successfully logged out")) tt in
  succeeded (out_resp o) = true ∧
  findRefreshToken "0" (out_world o) = None ∧
  (∀ j, j ≠ "0" →
        findRefreshToken j (out_world o) = findRefreshToken j aliceWorld) ∧
  resp_cleared (out_resp o) = ["accessToken"; "refreshToken"] ∧
  resp_cookies (out_resp o) = [] ∧
  precedes (Ev (DeleteRefreshToken (Some "0")) tt) sent (out_trace o) ∧
  precedes (Ev (ResClearCookie "accessToken") tt) sent (out_trace o) ∧
  precedes (Ev (ResClearCookie "refreshToken") tt) sent (out_trace o).
Proof.
  apply (logout_revokes_and_clears sampleServices aliceWorld aliceAuth "0").
  reflexivity.
Defined.

(** * Rejected input *)

(** C6: a register or login request whose validation reports at least one
    violation is answered with a 400 error carrying the message of the
    first violation; [next] is the only call made, so no password is
    hashed, no user is created, no refresh-token record is persisted, and
    the world is left as it was. *)
Theorem invalid_input_rejected (svc : Services) (q : Request) (w : World)
    (e : ValidationError) (rest : list ValidationError) :
  match q with
  | Register req => cur_validation req = e :: rest
  | Login req => lr_validation req = e :: rest
  | _ => False
  end →
  let o := serve svc q w in
  let err := createHttpError 400 (msg e) in
  out_resp o = mkResponse [] [] 200 None (Some err) ∧
  succeeded (out_resp o) = false ∧
  out_trace o = [Ev (Next err) tt] ∧
  hashed (out_trace o) = [] ∧
  persisted (out_trace o) = [] ∧
  out_world o = w.
Proof.
  intros Hq o err. subst o err.
  destruct q as [req | req | auth | auth | auth]; try done;
    unfold serve; simpl;
    [unfold AuthController.register | unfold AuthController.login];
    rewrite Hq; simpl; done.
Qed.

Lemma invalid_input_rejected_witness :
  let o := serve sampleServices (Register malformedRegister) aliceWorld in
  let err := createHttpError 400 "Email is required!" in
  out_resp o = mkResponse [] [] 200 None (Some err) ∧
  succeeded (out_resp o) = false ∧
  out_trace o = [Ev (Next err) tt] ∧
  hashed (out_trace o) = [] ∧
  persisted (out_trace o) = [] ∧
  out_world o = aliceWorld.
Proof.
  apply (invalid_input_rejected sampleServices (Register malformedRegister)
           aliceWorld (mkValidationError "Email is required!")
           [mkValidationError "Password is required!"]).
  reflexivity.
Defined.

(** * Identity lookup *)

(** C9: [self] answers with exactly what the user directory returns for
    the [sub] of the token: the stored user as it is, password hash
    included, or null when there is no such user, in both cases as a
    normal response and never through [next]; nothing in the world
    changes. *)
Theorem self_returns_directory_entry (svc : Services) (w : World)
    (auth : Auth) :
  let o := serve svc (Self auth) w in
  let found := findById (auth_sub auth) w in
  out_resp o = mkResponse [] [] 200 (Some (JUser found)) None ∧
  succeeded (out_resp o) = true ∧
  out_trace o = [Ev (FindById (auth_sub auth)) found;
                 Ev (ResJson (JUser found)) tt] ∧
  out_world o = w ∧
  match found with
  | Some u => resp_body (out_resp o) = Some (JUser (Some u))
  | None => resp_body (out_resp o) = Some (JUser None)
  end.
Proof.
  intros o found. subst o found. unfold serve. simpl. split_and!; try done.
  by destruct (findById (auth_sub auth) w).
Qed.

(** For alice the body carries her stored password hash. *)
Example self_alice :
  resp_body (out_resp (serve sampleServices (Self aliceAuth) aliceWorld)) =
    Some (JUser (Some alice)) ∧
  user_password alice = hashPassword sampleServices "secret".
Proof. split; reflexivity. Qed.

(** For a user that is gone the body is null, and it is not an error. *)
Example self_ghost :
  out_resp (serve sampleServices (Self ghostAuth) aliceWorld) =
    mkResponse [] [] 200 (Some (JUser None)) None.
Proof. reflexivity. Qed.

(** * Refresh for a user that is gone *)

(** C10: a refresh whose [sub] names no user is answered with a 400 error
    and does nothing else: no record is persisted, the old record is not
    deleted, no cookie is set, and the world is left as it was. *)
Theorem refresh_without_user_changes_nothing (svc : Services) (w : World)
    (auth : Auth) :
  findById (auth_sub auth) w = None →
  let o := serve svc (Refresh auth) w in
  let err := createHttpError 400 "User with token could not found" in
  out_resp o = mkResponse [] [] 200 None (Some err) ∧
  succeeded (out_resp o) = false ∧
  out_world o = w ∧
  (∀ j, findRefreshToken j (out_world o) = findRefreshToken j w) ∧
  persisted (out_trace o) = [] ∧
  out_trace o =
    [ Ev (GenerateAccessToken (accessClaims (auth_sub auth) (auth_email auth)))
         (generateAccessToken svc
            (accessClaims (auth_sub auth) (auth_email auth)));
      Ev (FindById (auth_sub auth)) None;
      Ev (Next err) tt ] ∧
  resp_cookies (out_resp o) = [].
Proof.
  intros Hu o err. subst o err.
  rewrite (refresh_missing_user_run svc w auth Hu). simpl. done.
Qed.

Lemma refresh_without_user_changes_nothing_witness :
  let o := serve sampleServices (Refresh ghostAuth) aliceWorld in
  let err := createHttpError 400 "User with token could not found" in
  out_resp o = mkResponse [] [] 200 None (Some err) ∧
  succeeded (out_resp o) = false ∧
  out_world o = aliceWorld ∧
  (∀ j, findRefreshToken j (out_world o) = findRefreshToken j aliceWorld) ∧
  persisted (out_trace o) = [] ∧
  out_trace o =
    [ Ev (GenerateAccessToken (accessClaims "7" "ghost@x.com")) "access:7";
      Ev (FindById "7") None;
      Ev (Next err) tt ] ∧
  resp_cookies (out_resp o) = [].
Proof.
  apply (refresh_without_user_changes_nothing sampleServices aliceWorld
           ghostAuth).
  reflexivity.
Defined.

(** * Logging in after registering *)

(** C7: once a user has registered with an email that was not yet taken,
    every later login with the registered email and secret succeeds,
    whatever requests were served in between; and of any two successful
    logins, with any requests served between them, each persists one
    record under an id that was unused when it was allocated, and the two
    ids differ.  The password service is assumed to accept a secret
    against its own hash. *)
Theorem registered_login_succeeds_with_distinct_records (svc : Services)
    (w0 : World) (req : CreateUserRequest)
    (before between : list Request) (la lb : LoginRequest) :
  (∀ p, comparePassword svc p (hashPassword svc p) = true) →
  wfStore w0 →
  findByEmail (cu_email (cur_body req)) w0 = None →
  succeeded (out_resp (serve svc (Register req) w0)) = true →
  let registration := serve svc (Register req) w0 in
  let w1 := out_world registration in
  let wa := serveAll svc before w1 in
  let oa := serve svc (Login la) wa in
  let wb := serveAll svc between (out_world oa) in
  let ob := serve svc (Login lb) wb in
  (la = loginOf req →
     succeeded (out_resp oa) = true ∧
     resp_status (out_resp oa) = 200 ∧
     resp_body (out_resp oa) = resp_body (out_resp registration)) ∧
  (succeeded (out_resp oa) = true → succeeded (out_resp ob) = true →
     ∃ ra rb,
       persisted (out_trace oa) = [ra] ∧
       persisted (out_trace ob) = [rb] ∧
       findRefreshToken (rt_id ra) wa = None ∧
       findRefreshToken (rt_id rb) wb = None ∧
       findRefreshToken (rt_id ra) (out_world oa) = Some ra ∧
       findRefreshToken (rt_id rb) (out_world ob) = Some rb ∧
       rt_id ra ≠ rt_id rb).
Proof.
  intros Hhash Hwf Hfree Hreg registration w1 wa oa wb ob.
  destruct (register_succeeded_inv svc w0 req Hreg)
    as (path & link & Hv & Hf & Hl).
  set (u := (createUser (registerData svc req link) w0).2).
  assert (Hrun : registration =
                 serve svc (Register req) w0) by done.
  rewrite (register_run svc w0 req path link Hv Hf Hl) in Hrun.
  assert (Hw1 : wfStore w1) by by apply runProg_wfStore.
  assert (Hwa : wfStore wa) by by apply serveAll_wfStore.
  assert (Hwb : wfStore wb) by by apply serveAll_wfStore, runProg_wfStore.
  split.
  - intros ->.
    assert (Hu : findByEmail (cu_email (cur_body req)) wa = Some u).
    { apply findByEmail_serveAll. subst w1. rewrite Hrun. simpl.
      unfold findByEmail. simpl. apply find_app_None; [done |].
      simpl. by apply bool_decide_eq_true. }
    subst oa.
    rewrite (login_run svc wa (loginOf req) u); [| done | done |].
    + by rewrite Hrun.
    + simpl. apply Hhash.
  - intros Hoka Hokb.
    destruct (login_succeeded_inv svc wa la Hoka) as (ua & Hva & Hua & Hpa).
    destruct (login_succeeded_inv svc wb lb Hokb) as (ub & Hvb & Hub & Hpb).
    assert (Hlt : (nextTokenId wa < nextTokenId wb)%N).
    { subst wb. eapply N.lt_le_trans; [| apply serveAll_nextTokenId].
      subst oa. rewrite (login_run svc wa la ua Hva Hua Hpa). simpl. lia. }
    subst ob. rewrite (login_run svc wb lb ub Hvb Hub Hpb).
    subst oa. rewrite (login_run svc wa la ua Hva Hua Hpa). simpl.
    do 2 eexists. split_and!; try reflexivity.
    + by apply fresh_id_unused.
    + by apply fresh_id_unused.
    + unfold findRefreshToken. simpl. apply lookup_insert_eq.
    + unfold findRefreshToken. simpl. apply lookup_insert_eq.
    + simpl. intros Heq. apply (inj pretty) in Heq. lia.
Qed.

Lemma registered_login_succeeds_with_distinct_records_witness :
  let w1 := aliceWorld in
  let wa := serveAll sampleServices [Login aliceWrongLogin] w1 in
  let oa := serve sampleServices (Login aliceLogin) wa in
  let wb := serveAll sampleServices [Logout aliceAuth; Refresh aliceAuth]
                     (out_world oa) in
  let ob := serve sampleServices (Login aliceLogin) wb in
  (aliceLogin = loginOf aliceRequest →
     succeeded (out_resp oa) = true ∧
     resp_status (out_resp oa) = 200 ∧
     resp_body (out_resp oa) =
       resp_body (out_resp (serve sampleServices (Register aliceRequest)
                                  (emptyWorld 0)))) ∧
  (succeeded (out_resp oa) = true → succeeded (out_resp ob) = true →
     ∃ ra rb,
       persisted (out_trace oa) = [ra] ∧
       persisted (out_trace ob) = [rb] ∧
       findRefreshToken (rt_id ra) wa = None ∧
       findRefreshToken (rt_id rb) wb = None ∧
       findRefreshToken (rt_id ra) (out_world oa) = Some ra ∧
       findRefreshToken (rt_id rb) (out_world ob) = Some rb ∧
       rt_id ra ≠ rt_id rb).
Proof.
  apply (registered_login_succeeds_with_distinct_records sampleServices
           (emptyWorld 0) aliceRequest [Login aliceWrongLogin]
           [Logout aliceAuth; Refresh aliceAuth] aliceLogin aliceLogin).
  - exact sampleServices_accept.
  - exact (wfStore_empty 0).
  - reflexivity.
  - vm_compute. reflexivity.
Defined.

(** Alice logs in, logs out, and logs in again: records "1" and "3". *)
Example alice_logs_in_twice :
  let oa := serve sampleServices (Login aliceLogin) aliceWorld in
  let wb := serveAll sampleServices [Logout aliceAuth; Refresh aliceAuth]
                     (out_world oa) in
  let ob := serve sampleServices (Login aliceLogin) wb in
  persisted (out_trace oa) = [mkRefreshToken "1" "0" 31536000000] ∧
  persisted (out_trace ob) = [mkRefreshToken "3" "0" 31536000000] ∧
  resp_body (out_resp oa) = Some (JId "0") ∧
  resp_body (out_resp ob) = Some (JId "0").
Proof. vm_compute. done. Qed.

(** * Two refresh requests with the same token *)

Lemma refreshTokenGenerate_points auth :
  AuthController.refreshTokenGenerate auth =
  (accessToken <- call GenerateAccessToken
     (accessClaims (auth_sub auth) (auth_email auth)) ;;
   found <- await FindById (auth_sub auth) ;;
   match found with
   | None =>
     call Next (createHttpError 400 "User with token could not found") ;;
     Ret tt
   | Some user => persistTail auth accessToken user
   end)%prog.
Proof. reflexivity. Qed.

Lemma schedule_steps svc sch c :
  runnable svc sch c = true → rtc (step svc) c (schedule svc sch c).
Proof.
  revert c. induction sch as [| side sch IH]; intros c; simpl; [done |].
  intros [Hf Hr]%andb_true_iff. apply negb_true_iff in Hf.
  eapply rtc_l; [| by apply IH].
  destruct side; by constructor.
Qed.

Lemma rtc_step_inv svc c c' :
  rtc (step svc) c c' → settled c' = true →
  (c' = c ∧ settled c = true) ∨
  (finished (cf_left c) = false ∧ rtc (step svc) (stepLeft svc c) c') ∨
  (finished (cf_right c) = false ∧ rtc (step svc) (stepRight svc c) c').
Proof.
  intros H Hs. destruct H as [c | c c1 c' H1 H]; [by left |].
  right. destruct H1 as [c H1 | c H1]; [left | right]; done.
Qed.

Lemma nextStage_pastGuard k del a :
  pastGuard a = true → pastGuard (nextStage k del a).2 = true.
Proof. by destruct a. Qed.

Lemma nextStage_deleted k del s :
  deleted s = true → deleted (nextStage k del s).2 = true.
Proof. by destruct s. Qed.

Lemma nextStage_refused k s :
  pastGuard s = false → pastGuard (nextStage k true s).2 = false.
Proof. by destruct s. Qed.

Lemma rtc_invariant {A} (R : relation A) (P : A → Prop) x y :
  (∀ a b, P a → R a b → P b) → P x → rtc R x y → P y.
Proof. intros HR Hx Hxy. induction Hxy; eauto. Qed.

Lemma stagesOk_sym k a b : stagesOk k a b → stagesOk k b a.
Proof.
  intros [H1 H2 H3 H4 H5 H6]. split; try done; [lia |].
  intros i j Hi Hj Heq. by apply (H6 j i).
Qed.

Section RefreshRace.

Variable rs : RaceSetup.

Hypothesis Hwf : wfStore (race_world rs).
Hypothesis Hid : auth_id (race_auth rs) = Some (race_old rs).
Hypothesis Hold :
  findRefreshToken (race_old rs) (race_world rs) = Some (race_rec rs).
Hypothesis Hu :
  findById (auth_sub (race_auth rs)) (race_world rs) = Some (race_user rs).

(** ** The world during the race *)

Lemma old_not_new i :
  race_old rs ≠ pretty (nextTokenId (race_world rs) + i)%N.
Proof.
  destruct (Hwf _ _ Hold) as [_ (n & Hn & Heq)]. rewrite Heq.
  intros Hp%(inj pretty). lia.
Qed.

Lemma worldAt_start : worldAt rs 0 false (race_world rs).
Proof.
  split; try done; [lia |].
  intros i. replace (i <? 0)%N with false by (symmetry; apply N.ltb_ge; lia).
  apply unissued_absent; [done | lia].
Qed.

Lemma worldAt_persist k del W :
  worldAt rs k del W →
  worldAt rs (k + 1) del (persistRefreshToken (race_user rs) W).1 ∧
  (persistRefreshToken (race_user rs) W).2 = nthRecord rs k.
Proof.
  intros [Hn Ht Hus Ho Hnew Hrest].
  assert (Hr : (persistRefreshToken (race_user rs) W).2 = nthRecord rs k).
  { unfold persistRefreshToken, nthRecord. simpl. by rewrite Hn, Ht. }
  split; [| done]. split; simpl.
  - rewrite Hn. lia.
  - done.
  - done.
  - unfold findRefreshToken in *. simpl. rewrite lookup_insert_ne; [done |].
    rewrite Hn. intros Heq. by apply (old_not_new k).
  - intros i. unfold findRefreshToken in *. simpl. rewrite Hn, Ht.
    destruct (decide (i = k)) as [-> | Hik].
    + rewrite lookup_insert_eq.
      replace (k <? k + 1)%N with true by (symmetry; apply N.ltb_lt; lia).
      done.
    + rewrite lookup_insert_ne.
      2: { intros Heq%(inj pretty). lia. }
      rewrite Hnew.
      destruct (i <? k)%N eqn:Hlt.
      * apply N.ltb_lt in Hlt.
        replace (i <? k + 1)%N with true by (symmetry; apply N.ltb_lt; lia).
        done.
      * apply N.ltb_ge in Hlt.
        replace (i <? k + 1)%N with false by (symmetry; apply N.ltb_ge; lia).
        done.
  - intros j Hj Hji. unfold findRefreshToken in *. simpl.
    rewrite lookup_insert_ne; [by apply Hrest |].
    rewrite Hn. intros Heq. by apply (Hji k).
Qed.

Lemma worldAt_delete k del W :
  worldAt rs k del W →
  worldAt rs k true (deleteRefreshToken (Some (race_old rs)) W).
Proof.
  intros [Hn Ht Hus Ho Hnew Hrest]. split; simpl; try done.
  - apply lookup_delete_eq.
  - intros i. unfold findRefreshToken in *. simpl.
    rewrite lookup_delete_ne; [apply Hnew | apply old_not_new].
  - intros j Hj Hji. unfold findRefreshToken in *. simpl.
    rewrite lookup_delete_ne; [by apply Hrest | done].
Qed.

Lemma worldAt_logInfo k del m x W :
  worldAt rs k del W → worldAt rs k del (logInfo m x W).
Proof. intros [Hn Ht Hus Ho Hnew Hrest]. by split. Qed.

Lemma worldAt_findById k del W :
  worldAt rs k del W →
  findById (auth_sub (race_auth rs)) W = Some (race_user rs).
Proof. intros [_ _ Hus _ _ _]. unfold findById in *. by rewrite Hus. Qed.

(** ** One resumption of a request, stage by stage *)

Lemma advance_guard k del W :
  worldAt rs k del W →
  advance (race_svc rs) (refreshRoute (race_auth rs)) W freshResponse =
    (W, stageThread rs (if del then Refused else AtHandler)).
Proof.
  intros [_ _ _ Ho _ _]. unfold refreshRoute. rewrite Hid. simpl.
  rewrite Ho. by destruct del.
Qed.

Lemma advance_refused W :
  advance (race_svc rs) refusal W freshResponse = (W, stageThread rs Rejected).
Proof. reflexivity. Qed.

Lemma advance_handler k del W :
  worldAt rs k del W →
  advance (race_svc rs) (AuthController.refreshTokenGenerate (race_auth rs))
          W freshResponse =
    (W, stageThread rs AtPersist).
Proof.
  intros HW. simpl. by rewrite (worldAt_findById _ _ _ HW).
Qed.

Lemma advance_persist k del W :
  worldAt rs k del W →
  advance (race_svc rs)
          (persistTail (race_auth rs) (raceAccessToken rs) (race_user rs))
          W freshResponse =
    ((persistRefreshToken (race_user rs) W).1, stageThread rs (AtDelete k)).
Proof.
  intros HW. simpl.
  by rewrite <- (proj2 (worldAt_persist _ _ _ HW)).
Qed.

Lemma advance_delete i W :
  advance (race_svc rs)
          (deleteTail (race_auth rs) (raceAccessToken rs) (nthRecord rs i))
          W freshResponse =
    (deleteRefreshToken (Some (race_old rs)) W, stageThread rs (AtReply i)).
Proof. simpl. by rewrite Hid. Qed.

Lemma advance_reply i W :
  advance (race_svc rs)
          (replyTail (race_auth rs) (raceAccessToken rs) (nthRecord rs i))
          W freshResponse =
    (logInfo "new refresh token generated for"
             (Some (auth_sub (race_auth rs))) W,
     stageThread rs (Renewed i)).
Proof. reflexivity. Qed.

Lemma finished_stage s : finished (stageThread rs s) = stageFinished s.
Proof.
  destruct s; try reflexivity.
  unfold finished. simpl. unfold refreshRoute. by rewrite Hid.
Qed.

(** ** The stages follow the requests *)

Lemma tracks_start :
  tracks rs 0 AtGuard AtGuard (race refreshRoute (race_auth rs) (race_world rs)).
Proof. split_and!; [done | done | apply worldAt_start | by split]. Qed.

(** Resuming a request in stage [a], next to one in stage [b]. *)
Lemma resume_stage k a b W :
  finished (stageThread rs a) = false →
  worldAt rs k (deleted a || deleted b) W →
  stagesOk k a b →
  let n := nextStage k (deleted a || deleted b) a in
  ∃ W',
    advance (race_svc rs) (th_prog (stageThread rs a)) W
            (th_resp (stageThread rs a)) =
      (W', stageThread rs n.2) ∧
    worldAt rs n.1 (deleted n.2 || deleted b) W' ∧
    stagesOk n.1 n.2 b.
Proof.
  intros Hf HW [H1 H2 H3 H4 H5 H6].
  destruct a as [| | | | i | i | i |]; try discriminate Hf;
    cbn [stageThread th_prog th_resp]; eexists.
  - (* the token check *)
    rewrite (advance_guard _ _ _ HW). simpl in *.
    destruct (deleted b) eqn:Hb; simpl; rewrite ?Hb;
      (split_and!; [done | done | by split]).
  - (* looking the user up *)
    rewrite (advance_handler _ _ _ HW). simpl in *.
    split_and!; [done | done | by split].
  - (* reporting the invalid token *)
    rewrite advance_refused. simpl in *.
    split_and!; [done | done | by split].
  - (* persisting the new record *)
    rewrite (advance_persist _ _ _ HW). simpl in *.
    split_and!; [done | by apply worldAt_persist |].
    split; unfold persists in *; simpl in *.
    + destruct (holds b); lia.
    + done.
    + done.
    + intros i [= <-]. lia.
    + intros i Hi. specialize (H5 i Hi). lia.
    + intros i j [= <-] Hj. specialize (H5 j Hj). lia.
  - (* deleting the old record *)
    rewrite advance_delete. simpl in *.
    split_and!; [done | eapply worldAt_delete, HW | by split].
  - (* replying *)
    rewrite advance_reply. simpl in *.
    split_and!; [done | by apply worldAt_logInfo | by split].
Qed.

Lemma tracks_stepLeft k a b c :
  tracks rs k a b c → finished (cf_left c) = false →
  let n := nextStage k (deleted a || deleted b) a in
  tracks rs n.1 n.2 b (stepLeft (race_svc rs) c).
Proof.
  intros (Ha & Hb & HW & Hok) Hf n. rewrite Ha in Hf.
  destruct (resume_stage k a b _ Hf HW Hok) as (W' & Hadv & HW' & Hok').
  unfold stepLeft. rewrite Ha, Hadv. by split_and!.
Qed.

Lemma tracks_stepRight k a b c :
  tracks rs k a b c → finished (cf_right c) = false →
  let n := nextStage k (deleted a || deleted b) b in
  tracks rs n.1 a n.2 (stepRight (race_svc rs) c).
Proof.
  intros (Ha & Hb & HW & Hok) Hf. rewrite Hb in Hf.
  rewrite (orb_comm (deleted a)). intros n.
  rewrite orb_comm in HW.
  destruct (resume_stage k b a _ Hf HW (stagesOk_sym _ _ _ Hok))
    as (W' & Hadv & HW' & Hok').
  fold n in Hadv, HW', Hok'.
  unfold stepRight, tracks. rewrite Hb, Hadv. simpl.
  split_and!; [done | done | by rewrite orb_comm | by apply stagesOk_sym].
Qed.

Lemma raceInv_step c c' :
  raceInv rs c → step (race_svc rs) c c' → raceInv rs c'.
Proof.
  intros (k & a & b & Ht) Hstep.
  destruct Hstep as [c Hf | c Hf].
  - eexists _, _, _. by apply tracks_stepLeft.
  - eexists _, _, _. by apply tracks_stepRight.
Qed.

Lemma raceInv_reachable c :
  rtc (step (race_svc rs))
      (race refreshRoute (race_auth rs) (race_world rs)) c →
  raceInv rs c.
Proof.
  revert c. apply rtc_ind_r; [by eexists _, _, _; apply tracks_start |].
  intros c c' _ Hstep IH. by eapply raceInv_step.
Qed.

(** A schedule that the stages allow is a run, and the stages follow. *)
Lemma tracks_schedule sch : ∀ k a b c st,
  tracks rs k a b c →
  stageSchedule sch (k, a, b) = Some st →
  rtc (step (race_svc rs)) c (schedule (race_svc rs) sch c) ∧
  tracks rs st.1.1 st.1.2 st.2 (schedule (race_svc rs) sch c).
Proof.
  induction sch as [| side sch IH]; intros k a b c st Ht Hrun; simpl in *.
  - injection Hrun as <-. by split.
  - pose proof Ht as (Ha & Hb & _ & _).
    destruct side.
    + destruct (stageFinished a) eqn:Hfa; [done |].
      assert (Hf : finished (cf_left c) = false)
        by by rewrite Ha, finished_stage.
      destruct (nextStage k (deleted a || deleted b) a) as [k' a'] eqn:Hn.
      pose proof (tracks_stepLeft k a b c Ht Hf) as Ht'.
      rewrite Hn in Ht'. simpl in Ht'.
      destruct (IH _ _ _ _ _ Ht' Hrun) as [Hr Hs].
      split; [| done]. eapply rtc_l; [by apply step_left | done].
    + destruct (stageFinished b) eqn:Hfb; [done |].
      assert (Hf : finished (cf_right c) = false)
        by by rewrite Hb, finished_stage.
      destruct (nextStage k (deleted a || deleted b) b) as [k' b'] eqn:Hn.
      pose proof (tracks_stepRight k a b c Ht Hf) as Ht'.
      rewrite Hn in Ht'. simpl in Ht'.
      destruct (IH _ _ _ _ _ Ht' Hrun) as [Hr Hs].
      split; [| done]. eapply rtc_l; [by apply step_right | done].
Qed.

(** ** How the race ends *)

Lemma raceInv_settled c :
  raceInv rs c → settled c = true →
  ∃ k a b,
    th_resp (cf_left c) = th_resp (stageThread rs a) ∧
    th_resp (cf_right c) = th_resp (stageThread rs b) ∧
    worldAt rs k true (cf_world c) ∧
    stagesOk k a b ∧
    (a = Rejected ∨ ∃ i, a = Renewed i) ∧
    (b = Rejected ∨ ∃ i, b = Renewed i) ∧
    (a = Rejected → b = Rejected → False).
Proof.
  intros (k & a & b & Ha & Hb & HW & Hok) Hs.
  unfold settled in Hs. rewrite Ha, Hb in Hs.
  apply andb_true_iff in Hs as [Hfa Hfb].
  exists k, a, b.
  rewrite finished_stage in Hfa, Hfb.
  destruct a as [| | | | i | i | i |]; try discriminate Hfa;
    destruct b as [| | | | j | j | j |]; try discriminate Hfb;
    rewrite Ha, Hb; simpl in HW;
    try (exfalso; by pose proof (so_failed_l _ _ _ Hok eq_refl));
    split_and!; try done; eauto.
Qed.

Lemma race_outcome c :
  rtc (step (race_svc rs))
      (race refreshRoute (race_auth rs) (race_world rs)) c →
  settled c = true →
  let svc := race_svc rs in
  let auth := race_auth rs in
  let w := race_world rs in
  let l := th_resp (cf_left c) in
  let r := th_resp (cf_right c) in
  let W := cf_world c in
  ((∃ new, l = renewed svc auth new ∧ r = rejected ∧ issuedIn w W new) ∨
   (∃ new, l = rejected ∧ r = renewed svc auth new ∧ issuedIn w W new) ∨
   (∃ nl nr, l = renewed svc auth nl ∧ r = renewed svc auth nr ∧
             rt_id nl ≠ rt_id nr ∧ issuedIn w W nl ∧ issuedIn w W nr)) ∧
  findRefreshToken (race_old rs) W = None ∧
  (∀ j t, j ≠ race_old rs → findRefreshToken j w = Some t →
          findRefreshToken j W = Some t).
Proof.
  intros Hrun Hs svc auth w l r W. subst svc auth w l r W.
  destruct (raceInv_settled c (raceInv_reachable c Hrun) Hs)
    as (k & a & b & Hl & Hr & HW & Hok & Ha & Hb & Hab).
  destruct HW as [_ _ _ Ho Hnew Hrest].
  destruct Hok as [_ _ _ Hhl Hhr Hapart].
  assert (Hin : ∀ i, (i < k)%N →
                     issuedIn (race_world rs) (cf_world c) (nthRecord rs i)).
  { intros i Hi. split; simpl.
    - apply unissued_absent; [done | lia].
    - rewrite (Hnew i).
      by replace (i <? k)%N with true by (symmetry; apply N.ltb_lt; lia). }
  split_and!.
  - rewrite Hl, Hr.
    destruct Ha as [-> | [i ->]], Hb as [-> | [j ->]]; simpl.
    + exfalso. by apply Hab.
    + right. left. exists (nthRecord rs j). split_and!; [done | done |].
      by apply Hin, Hhr.
    + left. exists (nthRecord rs i). split_and!; [done | done |].
      by apply Hin, Hhl.
    + right. right. exists (nthRecord rs i), (nthRecord rs j).
      split_and!; [done | done | | |].
      * simpl. intros Heq%(inj pretty).
        apply (Hapart i j); [done | done | lia].
      * by apply Hin, Hhl.
      * by apply Hin, Hhr.
  - exact Ho.
  - intros j t Hj Hjt. rewrite (Hrest j); [done | done |].
    intros i ->. destruct (Hwf _ _ Hjt) as [_ (m & Hm & Heq%(inj pretty))].
    lia.
Qed.

Lemma race_oneAfterTheOther :
  let start := race refreshRoute (race_auth rs) (race_world rs) in
  let c := schedule (race_svc rs) oneAfterTheOther start in
  rtc (step (race_svc rs)) start c ∧
  settled c = true ∧
  succeeded (th_resp (cf_left c)) = true ∧
  th_resp (cf_right c) = rejected.
Proof.
  destruct (tracks_schedule oneAfterTheOther 0%N AtGuard AtGuard _
              (0 + 1, Renewed 0, Rejected)%N tracks_start eq_refl)
    as [Hrun (Hl & Hr & _ & _)].
  split_and!; [exact Hrun | | |].
  - unfold settled. by rewrite Hl, Hr.
  - by rewrite Hl.
  - by rewrite Hr.
Qed.

Lemma race_checksFirst :
  let start := race refreshRoute (race_auth rs) (race_world rs) in
  let c := schedule (race_svc rs) checksFirst start in
  rtc (step (race_svc rs)) start c ∧
  settled c = true ∧
  succeeded (th_resp (cf_left c)) = true ∧
  succeeded (th_resp (cf_right c)) = true.
Proof.
  destruct (tracks_schedule checksFirst 0%N AtGuard AtGuard _
              (0 + 1 + 1, Renewed 0, Renewed (0 + 1))%N tracks_start eq_refl)
    as [Hrun (Hl & Hr & _ & _)].
  split_and!; [exact Hrun | | |].
  - unfold settled. by rewrite Hl, Hr.
  - by rewrite Hl.
  - by rewrite Hr.
Qed.

(** ** Each request on its own *)

Lemma atTokenCheck_stage s :
  atTokenCheck (th_prog (stageThread rs s)) =
  match s with AtGuard => true | _ => false end.
Proof.
  destruct s; try reflexivity. simpl. unfold refreshRoute. by rewrite Hid.
Qed.

Lemma tracks_threadOf side k a b c :
  tracks rs k a b c → threadOf side c = stageThread rs (stageOf side a b).
Proof. intros (Ha & Hb & _). by destruct side. Qed.

Lemma passedCheck_step side c c' :
  passedCheck rs side c → step (race_svc rs) c c' → passedCheck rs side c'.
Proof.
  intros (k & a & b & Ht & Hp) Hstep.
  destruct Hstep as [c Hf | c Hf].
  - eexists _, _, _. split; [by apply tracks_stepLeft |].
    destruct side; simpl in *; [by apply nextStage_pastGuard | done].
  - eexists _, _, _. split; [by apply tracks_stepRight |].
    destruct side; simpl in *; [done | by apply nextStage_pastGuard].
Qed.

Lemma refusedByCheck_step side c c' :
  refusedByCheck rs side c → step (race_svc rs) c c' →
  refusedByCheck rs side c'.
Proof.
  intros (k & a & b & Ht & Hp & Hd) Hstep.
  destruct Hstep as [c Hf | c Hf].
  - eexists _, _, _. split; [by apply tracks_stepLeft |].
    destruct side; simpl in *.
    + rewrite Hd, orb_true_r. split; [by apply nextStage_refused | done].
    + split; [done | by apply nextStage_deleted].
  - eexists _, _, _. split; [by apply tracks_stepRight |].
    destruct side; simpl in *.
    + split; [done | by apply nextStage_deleted].
    + rewrite Hd. split; [by apply nextStage_refused | done].
Qed.

Lemma passedCheck_settled side c :
  passedCheck rs side c → settled c = true →
  ∃ new, th_resp (threadOf side c) =
           renewed (race_svc rs) (race_auth rs) new ∧
         issuedIn (race_world rs) (cf_world c) new.
Proof.
  intros (k & a & b & Ht & Hp) Hs.
  rewrite (tracks_threadOf side _ _ _ _ Ht).
  destruct Ht as (Ha & Hb & HW & Hok).
  unfold settled in Hs. rewrite Ha, Hb in Hs.
  apply andb_true_iff in Hs as [Hfa Hfb].
  rewrite finished_stage in Hfa, Hfb.
  assert (Hfin : stageFinished (stageOf side a b) = true) by by destruct side.
  assert (Hlt : ∀ i, holds (stageOf side a b) = Some i → (i < k)%N).
  { destruct side; [apply (so_holds_l _ _ _ Hok) | apply (so_holds_r _ _ _ Hok)]. }
  destruct (stageOf side a b) as [| | | | i | i | i |]; try discriminate.
  specialize (Hlt i eq_refl).
  exists (nthRecord rs i). split; [done |]. split; simpl.
  - apply unissued_absent; [done | lia].
  - rewrite (wa_new _ _ _ _ HW i).
    by replace (i <? k)%N with true by (symmetry; apply N.ltb_lt; lia).
Qed.

Lemma refusedByCheck_settled side c :
  refusedByCheck rs side c → settled c = true →
  th_resp (threadOf side c) = rejected.
Proof.
  intros (k & a & b & Ht & Hp & _) Hs.
  rewrite (tracks_threadOf side _ _ _ _ Ht).
  destruct Ht as (Ha & Hb & _ & _).
  unfold settled in Hs. rewrite Ha, Hb in Hs.
  apply andb_true_iff in Hs as [Hfa Hfb].
  rewrite finished_stage in Hfa, Hfb.
  assert (Hfin : stageFinished (stageOf side a b) = true) by by destruct side.
  by destruct (stageOf side a b).
Qed.

(** A request that made its check while the old record was still stored
    has passed it. *)
Lemma checked_passedCheck side c :
  raceInv rs c →
  findRefreshToken (race_old rs) (cf_world c) = Some (race_rec rs) →
  atTokenCheck (th_prog (threadOf side c)) = false →
  passedCheck rs side c.
Proof.
  intros (k & a & b & Ht) Hstored Hchk. exists k, a, b. split; [done |].
  rewrite (tracks_threadOf side _ _ _ _ Ht), atTokenCheck_stage in Hchk.
  destruct Ht as (_ & _ & HW & Hok).
  pose proof (wa_old _ _ _ _ HW) as Ho. rewrite Hstored in Ho.
  destruct (deleted a || deleted b) eqn:Hdel; [done |].
  apply orb_false_iff in Hdel as [Hda Hdb].
  pose proof (so_failed_l _ _ _ Hok) as Hl.
  pose proof (so_failed_r _ _ _ Hok) as Hr.
  destruct side; simpl in *.
  - destruct a; simpl in *; try done; specialize (Hl eq_refl); congruence.
  - destruct b; simpl in *; try done; specialize (Hr eq_refl); congruence.
Qed.

(** A request that has not made its check when the old record is gone
    will be refused. *)
Lemma unchecked_refusedByCheck side c :
  raceInv rs c →
  findRefreshToken (race_old rs) (cf_world c) = None →
  atTokenCheck (th_prog (threadOf side c)) = true →
  refusedByCheck rs side c.
Proof.
  intros (k & a & b & Ht) Hgone Hchk. exists k, a, b. split; [done |].
  rewrite (tracks_threadOf side _ _ _ _ Ht), atTokenCheck_stage in Hchk.
  destruct Ht as (_ & _ & HW & _).
  pose proof (wa_old _ _ _ _ HW) as Ho. rewrite Hgone in Ho.
  destruct (deleted a || deleted b) eqn:Hdel; [| done].
  destruct side; simpl in *.
  - by destruct a.
  - destruct b; try done. by rewrite orb_false_r in Hdel.
Qed.

Lemma race_checked side c1 c :
  rtc (step (race_svc rs))
      (race refreshRoute (race_auth rs) (race_world rs)) c1 →
  findRefreshToken (race_old rs) (cf_world c1) = Some (race_rec rs) →
  atTokenCheck (th_prog (threadOf side c1)) = false →
  rtc (step (race_svc rs)) c1 c → settled c = true →
  ∃ new, th_resp (threadOf side c) =
           renewed (race_svc rs) (race_auth rs) new ∧
         issuedIn (race_world rs) (cf_world c) new.
Proof.
  intros Hrun Hstored Hchk Hrest Hs.
  apply passedCheck_settled; [| done].
  eapply (rtc_invariant _ (passedCheck rs side));
    [apply passedCheck_step | | exact Hrest].
  apply checked_passedCheck; [by apply raceInv_reachable | done | done].
Qed.

Lemma race_unchecked side c1 c :
  rtc (step (race_svc rs))
      (race refreshRoute (race_auth rs) (race_world rs)) c1 →
  findRefreshToken (race_old rs) (cf_world c1) = None →
  atTokenCheck (th_prog (threadOf side c1)) = true →
  rtc (step (race_svc rs)) c1 c → settled c = true →
  th_resp (threadOf side c) = rejected.
Proof.
  intros Hrun Hgone Hchk Hrest Hs.
  apply refusedByCheck_settled; [| done].
  eapply (rtc_invariant _ (refusedByCheck rs side));
    [apply refusedByCheck_step | | exact Hrest].
  apply unchecked_refusedByCheck; [by apply raceInv_reachable | done | done].
Qed.

Lemma race_bothChecked c1 c :
  rtc (step (race_svc rs))
      (race refreshRoute (race_auth rs) (race_world rs)) c1 →
  findRefreshToken (race_old rs) (cf_world c1) = Some (race_rec rs) →
  atTokenCheck (th_prog (cf_left c1)) = false →
  atTokenCheck (th_prog (cf_right c1)) = false →
  rtc (step (race_svc rs)) c1 c → settled c = true →
  ∃ nl nr,
    th_resp (cf_left c) = renewed (race_svc rs) (race_auth rs) nl ∧
    th_resp (cf_right c) = renewed (race_svc rs) (race_auth rs) nr ∧
    rt_id nl ≠ rt_id nr ∧
    issuedIn (race_world rs) (cf_world c) nl ∧
    issuedIn (race_world rs) (cf_world c) nr.
Proof.
  intros Hrun Hstored Hl Hr Hrest Hs.
  destruct (race_checked true c1 c Hrun Hstored Hl Hrest Hs) as (nl & Hnl & _).
  destruct (race_checked false c1 c Hrun Hstored Hr Hrest Hs) as (nr & Hnr & _).
  simpl in Hnl, Hnr.
  assert (Hall : rtc (step (race_svc rs))
                      (race refreshRoute (race_auth rs) (race_world rs)) c)
    by (by etrans).
  destruct (race_outcome c Hall Hs)
    as [[(new & _ & Hrej & _) | [(new & Hrej & _) | Hboth]] _].
  - rewrite Hrej in Hnr. discriminate Hnr.
  - rewrite Hrej in Hnl. discriminate Hnl.
  - exact Hboth.
Qed.

End RefreshRace.

(** Alice's token presented twice, one request after the other: the
    first is renewed with record "1", the second is refused. *)
Example alice_oneAfterTheOther :
  let c := schedule sampleServices oneAfterTheOther
             (race refreshRoute aliceAuth aliceWorld) in
  settled c = true ∧
  cookieValue "refreshToken" (th_resp (cf_left c)) = Some "refresh:0:1" ∧
  th_resp (cf_right c) = rejected ∧
  findRefreshToken "0" (cf_world c) = None ∧
  findRefreshToken "1" (cf_world c) =
    Some (mkRefreshToken "1" "0" 31536000000) ∧
  findRefreshToken "2" (cf_world c) = None.
Proof. vm_compute. done. Qed.

(** The same two requests with both token checks first: both are
    renewed, with records "1" and "2". *)
Example alice_checksFirst :
  let c := schedule sampleServices checksFirst
             (race refreshRoute aliceAuth aliceWorld) in
  settled c = true ∧
  cookieValue "refreshToken" (th_resp (cf_left c)) = Some "refresh:0:1" ∧
  cookieValue "refreshToken" (th_resp (cf_right c)) = Some "refresh:0:2" ∧
  findRefreshToken "0" (cf_world c) = None ∧
  findRefreshToken "1" (cf_world c) =
    Some (mkRefreshToken "1" "0" 31536000000) ∧
  findRefreshToken "2" (cf_world c) =
    Some (mkRefreshToken "2" "0" 31536000000).
Proof. vm_compute. done. Qed.

(** C8 does not hold as it is stated: alice's refresh token is still
    valid, yet when two refresh calls present it and both pass the token
    check before either handler deletes the record, both calls succeed. *)
Lemma refresh_race_has_two_winners :
  findRefreshToken "0" aliceWorld =
    Some (mkRefreshToken "0" "0" 31536000000) ∧
  ¬ oneWinner sampleServices aliceAuth aliceWorld.
Proof.
  split; [reflexivity |]. intros H.
  set (c := schedule sampleServices checksFirst
              (race refreshRoute aliceAuth aliceWorld)).
  assert (Hrun : rtc (step sampleServices)
                     (race refreshRoute aliceAuth aliceWorld) c)
    by (apply schedule_steps; vm_compute; reflexivity).
  assert (Hs : settled c = true) by (vm_compute; reflexivity).
  specialize (H c Hrun Hs). vm_compute in H. discriminate H.
Qed.

(** ** The user named by the token is gone *)

Section UserGone.

Variables (svc : Services) (w : World) (auth : Auth).
Variables (old : string) (rec : RefreshToken).

Hypothesis Hid : auth_id auth = Some old.
Hypothesis Hold : findRefreshToken old w = Some rec.
Hypothesis Hgone : findById (auth_sub auth) w = None.

Lemma unknownUser_check :
  advance svc (refreshRoute auth) w freshResponse =
    (w, mkThread (AuthController.refreshTokenGenerate auth) freshResponse).
Proof. unfold refreshRoute. rewrite Hid. simpl. by rewrite Hold. Qed.

Lemma unknownUser_lookup :
  advance svc (AuthController.refreshTokenGenerate auth) w freshResponse =
    (w, mkThread
          (call Next (createHttpError 400 "User with token could not found") ;;
           Ret tt)%prog
          freshResponse).
Proof. simpl. by rewrite Hgone. Qed.

Lemma unknownUser_advance t :
  t ∈ unknownUserThreads auth →
  ∃ t', advance svc (th_prog t) w (th_resp t) = (w, t') ∧
        t' ∈ unknownUserThreads auth.
Proof.
  unfold unknownUserThreads. intros Ht.
  repeat (apply elem_of_cons in Ht as [-> | Ht]);
    [| | | | by apply elem_of_nil in Ht]; eexists.
  - split; [apply unknownUser_check | by repeat constructor].
  - split; [apply unknownUser_lookup | by repeat constructor].
  - split; [reflexivity | by repeat constructor].
  - split; [reflexivity | by repeat constructor].
Qed.

Lemma unknownUser_finished t :
  t ∈ unknownUserThreads auth → finished t = true → th_resp t = unknownUser.
Proof.
  unfold unknownUserThreads. intros Ht.
  repeat (apply elem_of_cons in Ht as [-> | Ht]);
    [| | | | by apply elem_of_nil in Ht]; try done.
  unfold finished, refreshRoute. simpl. by rewrite Hid.
Qed.

Lemma unknownUserInv_step c c' :
  unknownUserInv auth w c → step svc c c' → unknownUserInv auth w c'.
Proof.
  intros (HW & Hl & Hr) Hstep. destruct Hstep as [c Hf | c Hf].
  - destruct (unknownUser_advance _ Hl) as (t' & Hadv & Ht').
    unfold stepLeft. rewrite HW, Hadv. by split_and!.
  - destruct (unknownUser_advance _ Hr) as (t' & Hadv & Ht').
    unfold stepRight. rewrite HW, Hadv. by split_and!.
Qed.

Lemma race_user_gone c :
  rtc (step svc) (race refreshRoute auth w) c → settled c = true →
  th_resp (cf_left c) = unknownUser ∧
  th_resp (cf_right c) = unknownUser ∧
  cf_world c = w.
Proof.
  intros Hrun Hs.
  assert (Hinv : unknownUserInv auth w c).
  { eapply (rtc_invariant _ (unknownUserInv auth w));
      [apply unknownUserInv_step | | exact Hrun].
    split_and!; [done | by repeat constructor | by repeat constructor]. }
  destruct Hinv as (HW & Hl & Hr).
  apply andb_true_iff in Hs as [Hfl Hfr].
  split_and!; [by apply unknownUser_finished | by apply unknownUser_finished
              | done].
Qed.

(** One request from the token check to its answer, next to [t]. *)
Lemma unknownUser_left_run t :
  rtc (step svc) (mkConfig w (mkThread (refreshRoute auth) freshResponse) t)
                 (mkConfig w (mkThread (Ret tt) unknownUser) t).
Proof.
  eapply rtc_l.
  { apply step_left. unfold finished, refreshRoute. simpl. by rewrite Hid. }
  unfold stepLeft. cbn [cf_left cf_right cf_world th_prog th_resp].
  rewrite unknownUser_check. eapply rtc_l; [by apply step_left |].
  unfold stepLeft. cbn [cf_left cf_right cf_world th_prog th_resp fst snd].
  rewrite unknownUser_lookup. eapply rtc_l; [by apply step_left |].
  done.
Qed.

Lemma unknownUser_right_run t :
  rtc (step svc) (mkConfig w t (mkThread (refreshRoute auth) freshResponse))
                 (mkConfig w t (mkThread (Ret tt) unknownUser)).
Proof.
  eapply rtc_l.
  { apply step_right. unfold finished, refreshRoute. simpl. by rewrite Hid. }
  unfold stepRight. cbn [cf_left cf_right cf_world th_prog th_resp].
  rewrite unknownUser_check. eapply rtc_l; [by apply step_right |].
  unfold stepRight. cbn [cf_left cf_right cf_world th_prog th_resp fst snd].
  rewrite unknownUser_lookup. eapply rtc_l; [by apply step_right |].
  done.
Qed.

Lemma race_user_gone_run :
  ∃ c, rtc (step svc) (race refreshRoute auth w) c ∧ settled c = true.
Proof.
  exists (mkConfig w (mkThread (Ret tt) unknownUser)
                     (mkThread (Ret tt) unknownUser)).
  split; [| done]. etrans; [apply unknownUser_left_run |].
  apply unknownUser_right_run.
Qed.

End UserGone.

(** C8, amended: two refresh calls present the same still-valid refresh
    token and their awaited steps interleave in any way.  When the user
    named by the token exists, at least one call succeeds with a new
    record and a call that does not succeed is refused with the
    invalid-token error; a call whose token check is made while the old
    record is still stored succeeds, and a call whose token check is made
    after the old record was deleted is refused; so whenever both checks
    are made while the old record is still stored both calls succeed,
    with records under different ids.  At the end the old record is
    deleted, every successful call's record is in the store, and no other
    record that was in the store is changed.  Run one after the other,
    the first call succeeds and the second is refused; run with both
    token checks first, both succeed.  When the user named by the token
    no longer exists, both calls pass the token check and both are
    answered with the 400 error of the handler, and the world is left as
    it was. *)
Theorem refresh_race_outcomes (svc : Services) (w : World) (auth : Auth)
    (old : string) (rec : RefreshToken) :
  wfStore w →
  auth_id auth = Some old →
  findRefreshToken old w = Some rec →
  let start := race refreshRoute auth w in
  (is_Some (findById (auth_sub auth) w) →
   (∀ c, rtc (step svc) start c → settled c = true →
      let l := th_resp (cf_left c) in
      let r := th_resp (cf_right c) in
      let W := cf_world c in
      ((∃ new, l = renewed svc auth new ∧ r = rejected ∧ issuedIn w W new) ∨
       (∃ new, l = rejected ∧ r = renewed svc auth new ∧ issuedIn w W new) ∨
       (∃ nl nr, l = renewed svc auth nl ∧ r = renewed svc auth nr ∧
                 rt_id nl ≠ rt_id nr ∧ issuedIn w W nl ∧ issuedIn w W nr)) ∧
      findRefreshToken old W = None ∧
      (∀ j t, j ≠ old → findRefreshToken j w = Some t →
              findRefreshToken j W = Some t)) ∧
   (∀ side c1 c, rtc (step svc) start c1 → rtc (step svc) c1 c →
      settled c = true →
      (findRefreshToken old (cf_world c1) = Some rec →
       atTokenCheck (th_prog (threadOf side c1)) = false →
       ∃ new, th_resp (threadOf side c) = renewed svc auth new ∧
              issuedIn w (cf_world c) new) ∧
      (findRefreshToken old (cf_world c1) = None →
       atTokenCheck (th_prog (threadOf side c1)) = true →
       th_resp (threadOf side c) = rejected)) ∧
   (∀ c1 c, rtc (step svc) start c1 → rtc (step svc) c1 c →
      settled c = true →
      findRefreshToken old (cf_world c1) = Some rec →
      atTokenCheck (th_prog (cf_left c1)) = false →
      atTokenCheck (th_prog (cf_right c1)) = false →
      ∃ nl nr, th_resp (cf_left c) = renewed svc auth nl ∧
               th_resp (cf_right c) = renewed svc auth nr ∧
               rt_id nl ≠ rt_id nr ∧
               issuedIn w (cf_world c) nl ∧ issuedIn w (cf_world c) nr) ∧
   (let c := schedule svc oneAfterTheOther start in
    rtc (step svc) start c ∧ settled c = true ∧
    succeeded (th_resp (cf_left c)) = true ∧
    th_resp (cf_right c) = rejected) ∧
   (let c := schedule svc checksFirst start in
    rtc (step svc) start c ∧ settled c = true ∧
    succeeded (th_resp (cf_left c)) = true ∧
    succeeded (th_resp (cf_right c)) = true)) ∧
  (findById (auth_sub auth) w = None →
   (∀ c, rtc (step svc) start c → settled c = true →
      th_resp (cf_left c) = unknownUser ∧
      th_resp (cf_right c) = unknownUser ∧
      cf_world c = w) ∧
   (∃ c, rtc (step svc) start c ∧ settled c = true)).
Proof.
  intros Hwf Hid Hold start. subst start. split.
  - intros [u Hu]. set (rs := mkRace svc w auth old rec u). split_and!.
    + intros c. by apply (race_outcome rs).
    + intros side c1 c Hrun Hrest Hs. split.
      * intros Hstored Hchk.
        by apply (race_checked rs Hwf Hid Hold Hu side c1 c).
      * intros Hgone Hchk.
        by apply (race_unchecked rs Hwf Hid Hold Hu side c1 c).
    + intros c1 c Hrun Hrest Hs Hstored Hl Hr.
      by apply (race_bothChecked rs Hwf Hid Hold Hu c1 c).
    + by apply (race_oneAfterTheOther rs).
    + by apply (race_checksFirst rs).
  - intros Hgone. split.
    + intros c. by apply (race_user_gone svc w auth old rec).
    + by apply (race_user_gone_run svc w auth old rec).
Qed.

Lemma refresh_race_outcomes_witness :
  (let start := race refreshRoute aliceAuth aliceWorld in
   (∀ c, rtc (step sampleServices) start c → settled c = true →
      ((∃ new, th_resp (cf_left c) = renewed sampleServices aliceAuth new ∧
               th_resp (cf_right c) = rejected ∧
               issuedIn aliceWorld (cf_world c) new) ∨
       (∃ new, th_resp (cf_left c) = rejected ∧
               th_resp (cf_right c) = renewed sampleServices aliceAuth new ∧
               issuedIn aliceWorld (cf_world c) new) ∨
       (∃ nl nr, th_resp (cf_left c) = renewed sampleServices aliceAuth nl ∧
                 th_resp (cf_right c) = renewed sampleServices aliceAuth nr ∧
                 rt_id nl ≠ rt_id nr ∧
                 issuedIn aliceWorld (cf_world c) nl ∧
                 issuedIn aliceWorld (cf_world c) nr)) ∧
      findRefreshToken "0" (cf_world c) = None ∧
      (∀ j t, j ≠ "0" → findRefreshToken j aliceWorld = Some t →
              findRefreshToken j (cf_world c) = Some t)) ∧
   (∀ side c1 c, rtc (step sampleServices) start c1 →
      rtc (step sampleServices) c1 c → settled c = true →
      (findRefreshToken "0" (cf_world c1) =
         Some (mkRefreshToken "0" "0" 31536000000) →
       atTokenCheck (th_prog (threadOf side c1)) = false →
       ∃ new, th_resp (threadOf side c) =
                renewed sampleServices aliceAuth new ∧
              issuedIn aliceWorld (cf_world c) new) ∧
      (findRefreshToken "0" (cf_world c1) = None →
       atTokenCheck (th_prog (threadOf side c1)) = true →
       th_resp (threadOf side c) = rejected)) ∧
   (∀ c1 c, rtc (step sampleServices) start c1 →
      rtc (step sampleServices) c1 c → settled c = true →
      findRefreshToken "0" (cf_world c1) =
        Some (mkRefreshToken "0" "0" 31536000000) →
      atTokenCheck (th_prog (cf_left c1)) = false →
      atTokenCheck (th_prog (cf_right c1)) = false →
      ∃ nl nr, th_resp (cf_left c) = renewed sampleServices aliceAuth nl ∧
               th_resp (cf_right c) = renewed sampleServices aliceAuth nr ∧
               rt_id nl ≠ rt_id nr ∧
               issuedIn aliceWorld (cf_world c) nl ∧
               issuedIn aliceWorld (cf_world c) nr) ∧
   (let c := schedule sampleServices oneAfterTheOther start in
    rtc (step sampleServices) start c ∧ settled c = true ∧
    succeeded (th_resp (cf_left c)) = true ∧
    th_resp (cf_right c) = rejected) ∧
   (let c := schedule sampleServices checksFirst start in
    rtc (step sampleServices) start c ∧ settled c = true ∧
    succeeded (th_resp (cf_left c)) = true ∧
    succeeded (th_resp (cf_right c)) = true)) ∧
  (let start := race refreshRoute ghostAuth aliceWorld in
   (∀ c, rtc (step sampleServices) start c → settled c = true →
      th_resp (cf_left c) = unknownUser ∧
      th_resp (cf_right c) = unknownUser ∧
      cf_world c = aliceWorld) ∧
   (∃ c, rtc (step sampleServices) start c ∧ settled c = true)).
Proof.
  split.
  - destruct (refresh_race_outcomes sampleServices aliceWorld aliceAuth "0"
                (mkRefreshToken "0" "0" 31536000000)
                aliceWorld_wf eq_refl eq_refl) as [Hthere _].
    exact (Hthere (ex_intro _ alice eq_refl)).
  - destruct (refresh_race_outcomes sampleServices aliceWorld ghostAuth "0"
                (mkRefreshToken "0" "0" 31536000000)
                aliceWorld_wf eq_refl eq_refl) as [_ Hgone].
    exact (Hgone eq_refl).
Defined.

(** * Further properties of the handlers *)

(** Split a run of any handler into its paths. *)
Ltac handler_paths :=
  unfold serve; simpl;
  unfold AuthController.register, AuthController.login;
  repeat (simpl;
          match goal with
          | |- context [cur_validation ?r] =>
              destruct (cur_validation r) eqn:?
          | |- context [lr_validation ?r] =>
              destruct (lr_validation r) eqn:?
          | |- context [truthy ?x] => destruct (truthy x) eqn:?
          | |- context [findByEmail ?e ?w] =>
              destruct (findByEmail e w) eqn:?
          | |- context [comparePassword ?s ?p ?h] =>
              destruct (comparePassword s p h) eqn:?
          | |- context [findById ?i ?w] => destruct (findById i w) eqn:?
          end);
  simpl.

(** X3: the only errors the controller passes to [next] carry status 400,
    except the one for a failed image upload during registration, which
    carries 500. *)
Theorem errors_are_400_or_500 (svc : Services) (q : Request) (w : World)
    (e : HttpError) :
  resp_next (out_resp (serve svc q w)) = Some e →
  err_status e = 400 ∨
  (err_status e = 500 ∧ err_message e = "Failed to upload image" ∧
   ∃ req path, q = Register req ∧
               truthy (cur_file_path req) = Some path ∧
               truthy (upload svc path ≫= url) = None).
Proof.
  destruct q as [req | req | auth | auth | auth]; handler_paths;
    intros [= <-]; simpl; eauto 10.
Qed.

Lemma errors_are_400_or_500_witness :
  let e := createHttpError 500 "Failed to upload image" in
  err_status e = 400 ∨
  (err_status e = 500 ∧ err_message e = "Failed to upload image" ∧
   ∃ req path, Register aliceRequest = Register req ∧
               truthy (cur_file_path req) = Some path ∧
               truthy (upload brokenStorage path ≫= url) = None).
Proof.
  apply (errors_are_400_or_500 brokenStorage (Register aliceRequest)
           (emptyWorld 0)).
  reflexivity.
Defined.

(** X4: a request that succeeds answers with status 201 when it is a
    registration and with 200 otherwise. *)
Theorem success_status (svc : Services) (q : Request) (w : World) :
  succeeded (out_resp (serve svc q w)) = true →
  resp_status (out_resp (serve svc q w)) = successStatus q.
Proof.
  destruct q as [req | req | auth | auth | auth]; handler_paths; done.
Qed.

Lemma success_status_witness :
  resp_status
    (out_resp (serve sampleServices (Register aliceRequest) (emptyWorld 0))) =
  successStatus (Register aliceRequest).
Proof.
  apply (success_status sampleServices (Register aliceRequest) (emptyWorld 0)).
  vm_compute. reflexivity.
Defined.

(** * The paths of [register] *)

(** X6: a registration with valid fields but without an image file (or
    with an empty path) is answered with "Please Upload Image" and status
    400.  The password has been hashed by then, but nothing was uploaded
    and nothing is stored. *)
Theorem register_without_image (svc : Services) (w : World)
    (req : CreateUserRequest) :
  cur_validation req = [] →
  truthy (cur_file_path req) = None →
  let o := serve svc (Register req) w in
  out_resp o =
    mkResponse [] [] 200 None
               (Some (createHttpError 400 "Please Upload Image")) ∧
  hashed (out_trace o) = [cu_password (cur_body req)] ∧
  uploaded (out_trace o) = [] ∧
  created (out_trace o) = [] ∧
  out_world o = w.
Proof.
  intros Hv Hf o. subst o. unfold serve. simpl.
  unfold AuthController.register. rewrite Hv. simpl. rewrite Hf. done.
Qed.

Lemma register_without_image_witness :
  let o := serve sampleServices (Register noImageRequest) (emptyWorld 0) in
  out_resp o =
    mkResponse [] [] 200 None
               (Some (createHttpError 400 "Please Upload Image")) ∧
  hashed (out_trace o) = ["secret"] ∧
  uploaded (out_trace o) = [] ∧
  created (out_trace o) = [] ∧
  out_world o = emptyWorld 0.
Proof.
  apply (register_without_image sampleServices (emptyWorld 0) noImageRequest);
    reflexivity.
Defined.

(** X7: when the image storage answers with nothing, or with no url, or
    with an empty url, the registration is answered with "Failed to
    upload image" and status 500; the image was handed to the storage
    once, no user is created and no session is opened. *)
Theorem register_upload_failure (svc : Services) (w : World)
    (req : CreateUserRequest) (path : string) :
  cur_validation req = [] →
  truthy (cur_file_path req) = Some path →
  truthy (upload svc path ≫= url) = None →
  let o := serve svc (Register req) w in
  out_resp o =
    mkResponse [] [] 200 None
               (Some (createHttpError 500 "Failed to upload image")) ∧
  uploaded (out_trace o) = [path] ∧
  created (out_trace o) = [] ∧
  persisted (out_trace o) = [] ∧
  out_world o = w.
Proof.
  intros Hv Hf Hl o. subst o. unfold serve. simpl.
  unfold AuthController.register. rewrite Hv. simpl. rewrite Hf. simpl.
  rewrite Hl. done.
Qed.

Lemma register_upload_failure_witness :
  let o := serve brokenStorage (Register aliceRequest) (emptyWorld 0) in
  out_resp o =
    mkResponse [] [] 200 None
               (Some (createHttpError 500 "Failed to upload image")) ∧
  uploaded (out_trace o) = ["/tmp/a.png"] ∧
  created (out_trace o) = [] ∧
  persisted (out_trace o) = [] ∧
  out_world o = emptyWorld 0.
Proof.
  apply (register_upload_failure brokenStorage (emptyWorld 0) aliceRequest
           "/tmp/a.png"); reflexivity.
Defined.

(** X9: a successful registration hands the directory one user, made of
    the name, email and bio of the request, the url that the image
    storage returned, and the hash of the password, not the password;
    the body of the answer is the id of that user. *)
Theorem register_stores_hashed_password (svc : Services) (w : World)
    (req : CreateUserRequest) :
  succeeded (out_resp (serve svc (Register req) w)) = true →
  let o := serve svc (Register req) w in
  ∃ u path,
    created (out_trace o) = [u] ∧
    users (out_world o) = (users w ++ [u])%list ∧
    user_userName u = cu_userName (cur_body req) ∧
    user_email u = cu_email (cur_body req) ∧
    user_bio u = cu_bio (cur_body req) ∧
    user_password u = hashPassword svc (cu_password (cur_body req)) ∧
    hashed (out_trace o) = [cu_password (cur_body req)] ∧
    truthy (cur_file_path req) = Some path ∧
    truthy (upload svc path ≫= url) = Some (user_profileImage u) ∧
    resp_body (out_resp o) = Some (JId (user_id u)).
Proof.
  intros Hok o. subst o.
  destruct (register_succeeded_inv svc w req Hok)
    as (path & link & Hv & Hf & Hl).
  rewrite (register_run svc w req path link Hv Hf Hl). simpl.
  eexists _, path. by split_and!.
Qed.

Lemma register_stores_hashed_password_witness :
  let o := serve sampleServices (Register aliceRequest) (emptyWorld 0) in
  ∃ u path,
    created (out_trace o) = [u] ∧
    users (out_world o) = (users (emptyWorld 0) ++ [u])%list ∧
    user_userName u = "alice" ∧
    user_email u = "alice@x.com" ∧
    user_bio u = None ∧
    user_password u = "hash:secret" ∧
    hashed (out_trace o) = ["secret"] ∧
    truthy (Some "/tmp/a.png") = Some path ∧
    truthy (upload sampleServices path ≫= url) = Some (user_profileImage u) ∧
    resp_body (out_resp o) = Some (JId (user_id u)).
Proof.
  apply (register_stores_hashed_password sampleServices (emptyWorld 0)
           aliceRequest).
  vm_compute. reflexivity.
Defined.

(** * The token store and the handlers *)

(** X12: no handler of the controller reads the refresh-token store:
    with any other store in place of the one in the world, every request
    gets the same answer and makes the same calls. *)
Theorem controller_never_reads_token_store (svc : Services) (q : Request)
    (w : World) (m : gmap string RefreshToken) :
  out_resp (serve svc q (withTokens m w)) = out_resp (serve svc q w) ∧
  out_trace (serve svc q (withTokens m w)) = out_trace (serve svc q w).
Proof.
  destruct q as [req | req | auth | auth | auth]; unfold serve; simpl;
    unfold AuthController.register, AuthController.login.
  - destruct (cur_validation req); simpl; [| done].
    destruct (truthy (cur_file_path req)); simpl; [| done].
    by destruct (truthy _).
  - destruct (lr_validation req); simpl; [| done].
    change (findByEmail (lb_email (lr_body req)) (withTokens m w))
      with (findByEmail (lb_email (lr_body req)) w).
    destruct (findByEmail _ w) as [u |]; simpl; [| done].
    by destruct (comparePassword _ _ _).
  - done.
  - change (findById (auth_sub auth) (withTokens m w))
      with (findById (auth_sub auth) w).
    by destruct (findById _ w).
  - done.
Qed.

(** * Sessions in the store *)

(** X14: logout is idempotent: a second logout with the same identity
    succeeds again with the same answer and leaves the store as the first
    one left it. *)
Theorem logout_twice (svc : Services) (w : World) (auth : Auth)
    (id : string) :
  auth_id auth = Some id →
  let o1 := serve svc (Logout auth) w in
  let o2 := serve svc (Logout auth) (out_world o1) in
  succeeded (out_resp o2) = true ∧
  out_resp o2 = out_resp o1 ∧
  refreshTokens (out_world o2) = refreshTokens (out_world o1) ∧
  users (out_world o2) = users w.
Proof.
  intros Hid o1 o2. subst o1 o2. unfold serve. simpl. rewrite Hid. simpl.
  split_and!; try done. apply delete_delete_eq.
Qed.

Lemma logout_twice_witness :
  let o1 := serve sampleServices (Logout aliceAuth) aliceWorld in
  let o2 := serve sampleServices (Logout aliceAuth) (out_world o1) in
  succeeded (out_resp o2) = true ∧
  out_resp o2 = out_resp o1 ∧
  refreshTokens (out_world o2) = refreshTokens (out_world o1) ∧
  users (out_world o2) = users aliceWorld.
Proof.
  apply (logout_twice sampleServices aliceWorld aliceAuth "0"). reflexivity.
Defined.

(** X15: login followed by a logout that presents the id of the record
    the login persisted brings the store back to what it was before the
    login; the directory is untouched throughout. *)
Theorem login_then_logout_restores_store (svc : Services) (w : World)
    (req : LoginRequest) (auth : Auth) (r : RefreshToken) :
  wfStore w →
  succeeded (out_resp (serve svc (Login req) w)) = true →
  persisted (out_trace (serve svc (Login req) w)) = [r] →
  auth_id auth = Some (rt_id r) →
  let o := serve svc (Logout auth) (out_world (serve svc (Login req) w)) in
  succeeded (out_resp o) = true ∧
  refreshTokens (out_world o) = refreshTokens w ∧
  users (out_world o) = users w.
Proof.
  intros Hwf Hok Hr Hid o. subst o.
  destruct (login_succeeded_inv svc w req Hok) as (u & Hv & Hu & Hp).
  rewrite (login_run svc w req u Hv Hu Hp) in Hr |- *. simpl in Hr.
  injection Hr as <-. unfold serve. simpl. rewrite Hid. simpl.
  split_and!; [done | | done].
  rewrite delete_insert_eq. apply delete_id. by apply fresh_id_unused.
Qed.

Lemma login_then_logout_restores_store_witness :
  let o := serve sampleServices (Logout (mkAuth "0" "alice@x.com" (Some "1")))
             (out_world (serve sampleServices (Login aliceLogin) aliceWorld)) in
  succeeded (out_resp o) = true ∧
  refreshTokens (out_world o) = refreshTokens aliceWorld ∧
  users (out_world o) = users aliceWorld.
Proof.
  apply (login_then_logout_restores_store sampleServices aliceWorld aliceLogin
           (mkAuth "0" "alice@x.com" (Some "1"))
           (mkRefreshToken "1" "0" 31536000000)).
  - exact aliceWorld_wf.
  - vm_compute. reflexivity.
  - vm_compute. reflexivity.
  - reflexivity.
Defined.

(** X16: a successful login or registration adds exactly one record to
    the store and removes none: every record that was there is still
    there, unchanged, so earlier sessions of the same user stay valid. *)
Theorem new_session_keeps_old_ones (svc : Services) (q : Request) (w : World) :
  wfStore w →
  match q with Register _ | Login _ => True | _ => False end →
  succeeded (out_resp (serve svc q w)) = true →
  let o := serve svc q w in
  size (refreshTokens (out_world o)) = S (size (refreshTokens w)) ∧
  ∀ id r, findRefreshToken id w = Some r →
          findRefreshToken id (out_world o) = Some r.
Proof.
  intros Hwf Hq Hok o. subst o.
  destruct q as [req | req | auth | auth | auth]; try done.
  - destruct (register_succeeded_inv svc w req Hok)
      as (path & link & Hv & Hf & Hl).
    rewrite (register_run svc w req path link Hv Hf Hl). simpl.
    pose proof (fresh_id_unused w Hwf) as Hfresh.
    unfold findRefreshToken in *. split.
    + by apply map_size_insert_None.
    + intros id r Hr. simpl. rewrite lookup_insert_ne; [done |].
      intros <-. congruence.
  - destruct (login_succeeded_inv svc w req Hok) as (u & Hv & Hu & Hp).
    rewrite (login_run svc w req u Hv Hu Hp). simpl.
    pose proof (fresh_id_unused w Hwf) as Hfresh.
    unfold findRefreshToken in *. split.
    + by apply map_size_insert_None.
    + intros id r Hr. simpl. rewrite lookup_insert_ne; [done |].
      intros <-. congruence.
Qed.

Lemma new_session_keeps_old_ones_witness :
  let o := serve sampleServices (Login aliceLogin) aliceWorld in
  size (refreshTokens (out_world o)) = S (size (refreshTokens aliceWorld)) ∧
  ∀ id r, findRefreshToken id aliceWorld = Some r →
          findRefreshToken id (out_world o) = Some r.
Proof.
  apply (new_session_keeps_old_ones sampleServices (Login aliceLogin)
           aliceWorld).
  - exact aliceWorld_wf.
  - exact I.
  - vm_compute. reflexivity.
Defined.

(** X17: a successful refresh that presents an id the store has handed
    out keeps the number of records when that record is still in the
    store, and adds one when it is not: the handler persists a record in
    either case and its delete then finds nothing to remove. *)
Theorem refresh_session_count (svc : Services) (w : World) (auth : Auth)
    (old : string) :
  wfStore w →
  issued w old →
  auth_id auth = Some old →
  succeeded (out_resp (serve svc (Refresh auth) w)) = true →
  let o := serve svc (Refresh auth) w in
  size (refreshTokens (out_world o)) =
    match findRefreshToken old w with
    | Some _ => size (refreshTokens w)
    | None => S (size (refreshTokens w))
    end.
Proof.
  intros Hwf Hold Hid Hok o. subst o.
  destruct (refresh_succeeded_inv svc w auth Hok) as [u Hu].
  rewrite (refresh_run svc w auth u Hu), Hid. simpl.
  pose proof (fresh_id_unused w Hwf) as Hfresh.
  pose proof (issued_fresh w old Hold) as Hne.
  unfold findRefreshToken in *.
  rewrite map_size_delete, lookup_insert_ne by done.
  rewrite map_size_insert_None by done.
  by destruct (refreshTokens w !! old).
Qed.

Lemma refresh_session_count_witness :
  let o := serve sampleServices (Refresh aliceAuth) aliceWorld in
  size (refreshTokens (out_world o)) =
    match findRefreshToken "0" aliceWorld with
    | Some _ => size (refreshTokens aliceWorld)
    | None => S (size (refreshTokens aliceWorld))
    end.
Proof.
  apply (refresh_session_count sampleServices aliceWorld aliceAuth "0").
  - exact aliceWorld_wf.
  - exact aliceToken_issued.
  - reflexivity.
  - vm_compute. reflexivity.
Defined.

(** * Tokens *)

(** X18: in every run of every handler, the claims signed into an access
    token carry no record id, and the claims signed into a refresh token
    carry the id of a record persisted by that same run, one token per
    record; when the request succeeds with a new session, both tokens are
    signed for the same [sub] and [email]. *)
Theorem signed_claims (svc : Services) (q : Request) (w : World) :
  let t := out_trace (serve svc q w) in
  Forall (λ p, jwt_id p = None) (accessSigned t) ∧
  map jwt_id (refreshSigned t) = map (λ r, Some (rt_id r)) (persisted t) ∧
  (issuesSession q = true →
   succeeded (out_resp (serve svc q w)) = true →
   map jwt_sub (refreshSigned t) = map jwt_sub (accessSigned t) ∧
   map jwt_email (refreshSigned t) = map jwt_email (accessSigned t) ∧
   length (refreshSigned t) = 1%nat).
Proof.
  intros t. subst t. destruct q as [req | req | auth | auth | auth];
    handler_paths; split_and!; try done; repeat constructor.
Qed.

(** * The token check and the handlers *)

Lemma findById_of_member w u :
  u ∈ users w → is_Some (findById (user_id u) w).
Proof.
  intros Hin. unfold findById.
  destruct (List.find _ (users w)) as [v |] eqn:Hfind; [by exists v |].
  apply list_elem_of_In in Hin.
  pose proof (find_none _ _ Hfind u Hin) as Hno. simpl in Hno.
  by rewrite bool_decide_eq_true_2 in Hno.
Qed.

Lemma findByEmail_member e w u : findByEmail e w = Some u → u ∈ users w.
Proof.
  unfold findByEmail. intros H. apply find_some in H as [H _].
  by apply list_elem_of_In.
Qed.

Lemma refreshRoute_accepts svc w auth id r :
  auth_id auth = Some id →
  findRefreshToken id w = Some r →
  is_Some (findById (auth_sub auth) w) →
  succeeded (out_resp (serveRefreshRoute svc auth w)) = true.
Proof.
  intros Hid Hr [u Hu]. unfold serveRefreshRoute, refreshRoute.
  rewrite Hid. simpl. rewrite Hr. simpl. by rewrite Hu.
Qed.

Lemma refreshRoute_refuses svc w auth id :
  auth_id auth = Some id →
  findRefreshToken id w = None →
  serveRefreshRoute svc auth w =
    mkOutcome w rejected
      [Ev (FindRefreshToken id) None; Ev (Next tokenInvalid) tt].
Proof.
  intros Hid Hr. unfold serveRefreshRoute, refreshRoute.
  rewrite Hid. simpl. by rewrite Hr.
Qed.

(** X19: the refresh token issued by a successful login or registration
    can be used at once: the identity it carries passes the token check,
    and the refresh handler behind the check succeeds for it. *)
Theorem new_session_can_refresh (svc : Services) (q : Request) (w : World)
    (p : JwtPayload) :
  match q with Register _ | Login _ => True | _ => False end →
  succeeded (out_resp (serve svc q w)) = true →
  refreshSigned (out_trace (serve svc q w)) = [p] →
  succeeded
    (out_resp (serveRefreshRoute svc (identityOf p)
                                 (out_world (serve svc q w)))) = true.
Proof.
  intros Hq Hok Hp.
  destruct q as [req | req | auth | auth | auth]; try done.
  - destruct (register_succeeded_inv svc w req Hok)
      as (path & link & Hv & Hf & Hl).
    rewrite (register_run svc w req path link Hv Hf Hl) in Hp |- *.
    simpl in Hp. injection Hp as <-. cbn [out_world].
    eapply refreshRoute_accepts; [reflexivity | apply lookup_insert_eq |].
    simpl. unfold toStr.
    apply (findById_of_member _ (createUser (registerData svc req link) w).2).
    simpl. apply elem_of_app. right. by apply list_elem_of_singleton.
  - destruct (login_succeeded_inv svc w req Hok) as (u & Hv & Hu & Hp').
    rewrite (login_run svc w req u Hv Hu Hp') in Hp |- *.
    simpl in Hp. injection Hp as <-. cbn [out_world].
    eapply refreshRoute_accepts; [reflexivity | apply lookup_insert_eq |].
    simpl. unfold toStr.
    apply (findById_of_member w u). by eapply findByEmail_member.
Qed.

Lemma new_session_can_refresh_witness :
  succeeded
    (out_resp
       (serveRefreshRoute sampleServices
          (identityOf (mkPayload "0" "alice@x.com" (Some "1")))
          (out_world (serve sampleServices (Login aliceLogin) aliceWorld))))
  = true.
Proof.
  apply (new_session_can_refresh sampleServices (Login aliceLogin) aliceWorld
           (mkPayload "0" "alice@x.com" (Some "1"))).
  - exact I.
  - vm_compute. reflexivity.
  - vm_compute. reflexivity.
Defined.

(** X20: after a successful refresh the presented token is spent and the
    issued one is good: presented again, the old identity is refused by
    the token check with the invalid-token error and nothing changes,
    while the identity of the newly signed refresh token passes the check
    and is renewed in turn. *)
Theorem rotation_spends_old_token (svc : Services) (w : World) (auth : Auth)
    (old : string) (p : JwtPayload) :
  wfStore w →
  issued w old →
  auth_id auth = Some old →
  succeeded (out_resp (serve svc (Refresh auth) w)) = true →
  refreshSigned (out_trace (serve svc (Refresh auth) w)) = [p] →
  let w' := out_world (serve svc (Refresh auth) w) in
  serveRefreshRoute svc auth w' =
    mkOutcome w' rejected
      [Ev (FindRefreshToken old) None; Ev (Next tokenInvalid) tt] ∧
  succeeded (out_resp (serveRefreshRoute svc (identityOf p) w')) = true.
Proof.
  intros Hwf Hold Hid Hok Hp w'. subst w'.
  destruct (refresh_succeeded_inv svc w auth Hok) as [u Hu].
  rewrite (refresh_run svc w auth u Hu) in Hp |- *.
  simpl in Hp. injection Hp as <-. rewrite Hid. cbn [out_world].
  pose proof (issued_fresh w old Hold) as Hne.
  split.
  - apply refreshRoute_refuses; [done |]. apply lookup_delete_eq.
  - eapply refreshRoute_accepts; [reflexivity | |].
    + unfold findRefreshToken, toStr. simpl.
      rewrite lookup_delete_ne by done. apply lookup_insert_eq.
    + simpl. by exists u.
Qed.

Lemma rotation_spends_old_token_witness :
  let w' := out_world (serve sampleServices (Refresh aliceAuth) aliceWorld) in
  serveRefreshRoute sampleServices aliceAuth w' =
    mkOutcome w' rejected
      [Ev (FindRefreshToken "0") None; Ev (Next tokenInvalid) tt] ∧
  succeeded
    (out_resp (serveRefreshRoute sampleServices
                 (identityOf (mkPayload "0" "alice@x.com" (Some "1"))) w'))
  = true.
Proof.
  apply (rotation_spends_old_token sampleServices aliceWorld aliceAuth "0"
           (mkPayload "0" "alice@x.com" (Some "1"))).
  - exact aliceWorld_wf.
  - exact aliceToken_issued.
  - reflexivity.
  - vm_compute. reflexivity.
  - vm_compute. reflexivity.
Defined.

(** X21: after a logout the identity that was logged out is refused by
    the token check with the invalid-token error, and that refused
    request changes nothing. *)
Theorem logout_revokes_refresh (svc : Services) (w : World) (auth : Auth)
    (id : string) :
  auth_id auth = Some id →
  let w' := out_world (serve svc (Logout auth) w) in
  serveRefreshRoute svc auth w' =
    mkOutcome w' rejected
      [Ev (FindRefreshToken id) None; Ev (Next tokenInvalid) tt].
Proof.
  intros Hid w'. subst w'. apply refreshRoute_refuses; [done |].
  unfold serve. simpl. rewrite Hid. apply lookup_delete_eq.
Qed.

Lemma logout_revokes_refresh_witness :
  let w' := out_world (serve sampleServices (Logout aliceAuth) aliceWorld) in
  serveRefreshRoute sampleServices aliceAuth w' =
    mkOutcome w' rejected
      [Ev (FindRefreshToken "0") None; Ev (Next tokenInvalid) tt].
Proof.
  apply (logout_revokes_refresh sampleServices aliceWorld aliceAuth "0").
  reflexivity.
Defined.

(** * Two logouts with the same token *)

(** Follow every schedule of a race to its end. *)
Ltac race_paths Hrun Hs :=
  let Hf := fresh "Hf" in
  let Hs' := fresh "Hs" in
  apply rtc_step_inv in Hrun; [| exact Hs];
  destruct Hrun as [[-> Hs'] | [[Hf Hrun] | [Hf Hrun]]];
  [ try discriminate Hs'
  | cbn in Hf; first [ discriminate Hf
                     | clear Hf; unfold stepLeft in Hrun; cbn in Hrun;
                       race_paths Hrun Hs ]
  | cbn in Hf; first [ discriminate Hf
                     | clear Hf; unfold stepRight in Hrun; cbn in Hrun;
                       race_paths Hrun Hs ] ].

(** X22: two logouts that present the same identity both succeed, however
    their awaited steps interleave: each clears both cookies, the record
    is gone at the end, and the store is what a single logout leaves. *)
Theorem logout_race_both_succeed (svc : Services) (w : World) (auth : Auth)
    (c : Config) :
  rtc (step svc) (race AuthController.logout auth w) c →
  settled c = true →
  th_resp (cf_left c) = loggedOut ∧
  th_resp (cf_right c) = loggedOut ∧
  refreshTokens (cf_world c) =
    refreshTokens (deleteRefreshToken (auth_id auth) w) ∧
  users (cf_world c) = users w.
Proof.
  intros Hrun Hs. unfold race in Hrun. cbn in Hrun.
  race_paths Hrun Hs;
    (split_and!; [reflexivity | reflexivity | | ]);
    destruct (auth_id auth) as [id |]; simpl; try done;
    by rewrite ?delete_delete_eq.
Qed.

Lemma logout_race_both_succeed_witness :
  let c := schedule sampleServices logoutsOverlapping
             (race AuthController.logout aliceAuth aliceWorld) in
  th_resp (cf_left c) = loggedOut ∧
  th_resp (cf_right c) = loggedOut ∧
  refreshTokens (cf_world c) =
    refreshTokens (deleteRefreshToken (auth_id aliceAuth) aliceWorld) ∧
  users (cf_world c) = users aliceWorld.
Proof.
  apply (logout_race_both_succeed sampleServices aliceWorld aliceAuth).
  - apply schedule_steps. vm_compute. reflexivity.
  - vm_compute. reflexivity.
Defined.

(** * Two refresh handlers with the same identity *)

Section HandlerRace.

Variable rs : RaceSetup.

Hypothesis Hwf : wfStore (race_world rs).
Hypothesis Hid : auth_id (race_auth rs) = Some (race_old rs).
Hypothesis Hold :
  findRefreshToken (race_old rs) (race_world rs) = Some (race_rec rs).
Hypothesis Hu :
  findById (auth_sub (race_auth rs)) (race_world rs) = Some (race_user rs).

Lemma handlerInv_start :
  handlerInv rs
    (race AuthController.refreshTokenGenerate (race_auth rs) (race_world rs)).
Proof.
  exists 0%N, AtHandler, AtHandler. split_and!; try done.
  split_and!; [done | done | by apply worldAt_start | by split].
Qed.

Lemma handlerInv_step c c' :
  handlerInv rs c → step (race_svc rs) c c' → handlerInv rs c'.
Proof.
  intros (k & a & b & Ht & Ha & Hb) Hstep.
  destruct Hstep as [c Hf | c Hf].
  - eexists _, _, _. split_and!.
    + by apply (tracks_stepLeft rs Hwf Hid Hold Hu k a b).
    + by apply nextStage_pastGuard.
    + done.
  - eexists _, _, _. split_and!.
    + by apply (tracks_stepRight rs Hwf Hid Hold Hu k a b).
    + done.
    + by apply nextStage_pastGuard.
Qed.

Lemma handlerInv_reachable c :
  rtc (step (race_svc rs))
      (race AuthController.refreshTokenGenerate (race_auth rs)
            (race_world rs)) c →
  handlerInv rs c.
Proof.
  revert c. apply rtc_ind_r; [apply handlerInv_start |].
  intros c c' _ Hstep IH. by eapply handlerInv_step.
Qed.

Lemma handler_race_outcome c :
  rtc (step (race_svc rs))
      (race AuthController.refreshTokenGenerate (race_auth rs)
            (race_world rs)) c →
  settled c = true →
  ∃ i j,
    ((i = 0 ∧ j = 1) ∨ (i = 1 ∧ j = 0))%N ∧
    th_resp (cf_left c) =
      renewed (race_svc rs) (race_auth rs) (nthRecord rs i) ∧
    th_resp (cf_right c) =
      renewed (race_svc rs) (race_auth rs) (nthRecord rs j) ∧
    issuedIn (race_world rs) (cf_world c) (nthRecord rs i) ∧
    issuedIn (race_world rs) (cf_world c) (nthRecord rs j) ∧
    findRefreshToken (race_old rs) (cf_world c) = None.
Proof.
  intros Hrun Hs.
  destruct (handlerInv_reachable c Hrun)
    as (k & a & b & (Ha & Hb & HW & Hok) & Hpa & Hpb).
  unfold settled in Hs. rewrite Ha, Hb in Hs.
  apply andb_true_iff in Hs as [Hfa Hfb].
  rewrite (finished_stage rs Hid) in Hfa, Hfb.
  destruct a as [| | | | i | i | i |]; try discriminate;
    destruct b as [| | | | j | j | j |]; try discriminate.
  destruct Hok as [Hk _ _ Hhl Hhr Hapart]. simpl in *.
  destruct HW as [_ _ _ Ho Hnew _].
  specialize (Hhl i eq_refl). specialize (Hhr j eq_refl).
  specialize (Hapart i j eq_refl eq_refl).
  assert (Hin : ∀ n, (n < k)%N →
                     issuedIn (race_world rs) (cf_world c) (nthRecord rs n)).
  { intros n Hn. split; simpl.
    - apply unissued_absent; [done | lia].
    - rewrite (Hnew n).
      by replace (n <? k)%N with true by (symmetry; apply N.ltb_lt; lia). }
  exists i, j. rewrite Ha, Hb. split_and!; try done; try by apply Hin.
  unfold persists in Hk. simpl in Hk. lia.
Qed.

End HandlerRace.

(** X23: behind the token check nothing stops a second refresh: when two
    requests that present the same, still stored, refresh token of an
    existing user are both in the refresh handler, then however their
    awaited steps interleave both succeed, one with the next record of
    the store and one with the record after it; both records are in the
    store at the end and the presented one is not. *)
Theorem refresh_handlers_both_succeed (svc : Services) (w : World)
    (auth : Auth) (old : string) (rec : RefreshToken) (u : User)
    (c : Config) :
  wfStore w →
  auth_id auth = Some old →
  findRefreshToken old w = Some rec →
  findById (auth_sub auth) w = Some u →
  rtc (step svc) (race AuthController.refreshTokenGenerate auth w) c →
  settled c = true →
  let first := mkRefreshToken (pretty (nextTokenId w)) (user_id u)
                              (now w + refreshTTL) in
  let second := mkRefreshToken (pretty (N.succ (nextTokenId w))) (user_id u)
                               (now w + refreshTTL) in
  rt_id first ≠ rt_id second ∧
  ((th_resp (cf_left c) = renewed svc auth first ∧
    th_resp (cf_right c) = renewed svc auth second) ∨
   (th_resp (cf_left c) = renewed svc auth second ∧
    th_resp (cf_right c) = renewed svc auth first)) ∧
  issuedIn w (cf_world c) first ∧
  issuedIn w (cf_world c) second ∧
  findRefreshToken old (cf_world c) = None.
Proof.
  intros Hwf Hid Hold Hu Hrun Hs first second.
  destruct (handler_race_outcome (mkRace svc w auth old rec u)
              Hwf Hid Hold Hu c Hrun Hs)
    as (i & j & Hij & Hl & Hr & Hi & Hj & Ho).
  assert (H0 : nthRecord (mkRace svc w auth old rec u) 0 = first).
  { unfold nthRecord. simpl. by rewrite N.add_0_r. }
  assert (H1 : nthRecord (mkRace svc w auth old rec u) 1 = second).
  { unfold nthRecord. simpl. by rewrite N.add_1_r. }
  simpl in *.
  split; [subst first second; simpl; intros Heq%(inj pretty); lia |].
  destruct Hij as [[-> ->] | [-> ->]]; rewrite H0, H1 in *;
    split_and!; auto.
Qed.

Lemma refresh_handlers_both_succeed_witness :
  let c := schedule sampleServices [true; false; false; true; true; false;
                                    true; false]
             (race AuthController.refreshTokenGenerate aliceAuth aliceWorld) in
  let first := mkRefreshToken (pretty (nextTokenId aliceWorld)) (user_id alice)
                              (now aliceWorld + refreshTTL) in
  let second := mkRefreshToken (pretty (N.succ (nextTokenId aliceWorld)))
                               (user_id alice) (now aliceWorld + refreshTTL) in
  rt_id first ≠ rt_id second ∧
  ((th_resp (cf_left c) = renewed sampleServices aliceAuth first ∧
    th_resp (cf_right c) = renewed sampleServices aliceAuth second) ∨
   (th_resp (cf_left c) = renewed sampleServices aliceAuth second ∧
    th_resp (cf_right c) = renewed sampleServices aliceAuth first)) ∧
  issuedIn aliceWorld (cf_world c) first ∧
  issuedIn aliceWorld (cf_world c) second ∧
  findRefreshToken "0" (cf_world c) = None.
Proof.
  apply (refresh_handlers_both_succeed sampleServices aliceWorld aliceAuth "0"
           (mkRefreshToken "0" "0" 31536000000) alice).
  - exact aliceWorld_wf.
  - reflexivity.
  - reflexivity.
  - reflexivity.
  - apply schedule_steps. vm_compute. reflexivity.
  - vm_compute. reflexivity.
Defined.

(** * Sessions and users *)

Lemma find_is_Some {A} (f : A → bool) (l : list A) x :
  x ∈ l → f x = true → is_Some (List.find f l).
Proof.
  intros Hin Hx. destruct (List.find f l) as [v |] eqn:Hfind; [by exists v |].
  apply list_elem_of_In in Hin.
  pose proof (find_none _ _ Hfind x Hin) as Hno. congruence.
Qed.

Lemma find_is_Some_app {A} (f : A → bool) (l k : list A) :
  is_Some (List.find f l) → is_Some (List.find f (l ++ k)).
Proof.
  intros [v Hv]. exists v. eapply find_prefix; [| done].
  by apply prefix_app_r.
Qed.

Lemma serve_ownersExist svc q w :
  ownersExist w → ownersExist (out_world (serve svc q w)).
Proof.
  intros Hown.
  destruct q as [req | req | auth | auth | auth]; handler_paths;
    unfold ownersExist, findRefreshToken, findById in *; simpl; try done.
  - (* register: the record is for the user just created *)
    intros id r. rewrite lookup_insert. case_decide as Hd.
    + intros [= <-]. simpl.
      eapply find_is_Some;
        [apply elem_of_app; right; by apply list_elem_of_singleton |].
      by apply bool_decide_eq_true.
    + intros Hr. by apply find_is_Some_app, (Hown id r).
  - (* login: the record is for the user found by email *)
    intros id r. rewrite lookup_insert. case_decide as Hd.
    + intros [= <-]. simpl.
      match goal with
      | H : findByEmail _ w = Some ?u |- _ =>
          apply (find_is_Some _ _ u);
            [by eapply findByEmail_member | by apply bool_decide_eq_true]
      end.
    + intros Hr. by apply (Hown id r).
  - (* refresh: the record is for the user found by id *)
    intros id r Hr.
    match goal with
    | H : List.find _ (users w) = Some ?v |- _ =>
        apply find_some in H as [Hin _]; apply list_elem_of_In in Hin;
        assert (Hnew : is_Some (List.find
                          (λ x, bool_decide (user_id x = user_id v))
                          (users w)))
          by (apply (find_is_Some _ _ v);
              [done | by apply bool_decide_eq_true])
    end.
    destruct (auth_id auth) as [old |]; simpl in *.
    + rewrite lookup_delete in Hr. case_decide; [done |].
      rewrite lookup_insert in Hr. case_decide.
      * by injection Hr as <-.
      * by apply (Hown id r).
    + rewrite lookup_insert in Hr. case_decide.
      * by injection Hr as <-.
      * by apply (Hown id r).
  - (* logout: records are only removed *)
    intros id r Hr.
    destruct (auth_id auth) as [old |]; simpl in *.
    + rewrite lookup_delete in Hr. case_decide; [done |].
      by apply (Hown id r).
    + by apply (Hown id r).
Qed.

(** X24: every record of the refresh-token store names a user of the
    directory, and every request keeps it so: the handlers persist a
    record only for a user that the directory has just created or
    returned, and the directory never loses a user. *)
Theorem sessions_belong_to_users (svc : Services) (qs : list Request)
    (w : World) :
  ownersExist w → ownersExist (serveAll svc qs w).
Proof.
  revert w. induction qs as [| q qs IH]; intros w Hown; simpl; [done |].
  by apply IH, serve_ownersExist.
Qed.

Lemma sessions_belong_to_users_witness :
  ownersExist
    (serveAll sampleServices
       [Register aliceRequest; Login aliceLogin; Refresh aliceAuth;
        Logout aliceAuth]
       (emptyWorld 0)).
Proof.
  apply (sessions_belong_to_users sampleServices).
  intros id r. unfold findRefreshToken. simpl. by rewrite lookup_empty.
Defined.

(** * Handlers whose collaborators may throw *)

(** A run in which no call throws is the run of [runProg]. *)
Lemma runThrowing_returned svc applied p : ∀ thr w r,
  end_thrown (runThrowing svc thr applied p w r) = false →
  end_world (runThrowing svc thr applied p w r) =
    out_world (runProg svc p w r) ∧
  end_resp (runThrowing svc thr applied p w r) =
    out_resp (runProg svc p w r) ∧
  end_trace (runThrowing svc thr applied p w r) =
    out_trace (runProg svc p w r).
Proof.
  induction p as [a | X e k IH | X e k IH]; intros thr w r; simpl;
    [done | |];
    (destruct (throwsNow e thr); simpl; [done |];
     intros H; by destruct (IH _ _ _ _ H) as (-> & -> & ->)).
Qed.

Lemma serveThrowing_returned svc thr applied q w :
  end_thrown (serveThrowing svc thr applied q w) = false →
  end_world (serveThrowing svc thr applied q w) = out_world (serve svc q w) ∧
  end_resp (serveThrowing svc thr applied q w) = out_resp (serve svc q w) ∧
  end_trace (serveThrowing svc thr applied q w) = out_trace (serve svc q w).
Proof. apply runThrowing_returned. Qed.

(** With [None] no call throws. *)
Lemma runThrowing_None svc applied p : ∀ w r,
  end_thrown (runThrowing svc None applied p w r) = false.
Proof.
  induction p as [a | X e k IH | X e k IH]; intros w r; simpl; [done | |];
    unfold throwsNow, laterThrow; destruct (onResponse e); apply IH.
Qed.

(** Split a run of any handler into its paths. *)
Ltac throwing_paths :=
  unfold serveThrowing; simpl;
  unfold AuthController.register, AuthController.login;
  repeat (simpl;
          match goal with
          | |- context [cur_validation ?r] =>
              destruct (cur_validation r) eqn:?
          | |- context [lr_validation ?r] =>
              destruct (lr_validation r) eqn:?
          | |- context [truthy ?x] => destruct (truthy x) eqn:?
          | |- context [findByEmail ?e ?w] =>
              destruct (findByEmail e w) eqn:?
          | |- context [comparePassword ?s ?p ?h] =>
              destruct (comparePassword s p h) eqn:?
          | |- context [findById ?i ?w] => destruct (findById i w) eqn:?
          end);
  simpl.

(** The call that throws, among the at most six collaborator calls of a
    handler. *)
Ltac throw_cases thr :=
  destruct thr as [[| [| [| [| [| [| ?]]]]]] |].

(** All handlers answer after their last call to a collaborator: a run
    that was cut short has sent no body and passed no error on. *)
Lemma thrown_unanswered svc thr applied q w :
  end_thrown (serveThrowing svc thr applied q w) = true →
  resp_body (end_resp (serveThrowing svc thr applied q w)) = None ∧
  resp_next (end_resp (serveThrowing svc thr applied q w)) = None.
Proof.
  throw_cases thr; destruct q as [req | req | auth | auth | auth];
    throwing_paths; done.
Qed.

Lemma thrown_not_succeeded svc thr applied q w :
  end_thrown (serveThrowing svc thr applied q w) = true →
  succeeded (end_resp (serveThrowing svc thr applied q w)) = false.
Proof.
  intros [Hb Hn]%thrown_unanswered. unfold succeeded. by rewrite Hb, Hn.
Qed.

(** X1: a request is answered exactly once unless a call to one of its
    collaborators throws or rejects, and then it is not answered at all.
    When every call returns, either one body is sent with [res.json] and
    nothing is passed to [next], or one error is passed to [next] and no
    body is sent; when one throws, the handler calls neither. *)
Theorem answered_once_unless_thrown (svc : Services) (thr : option nat)
    (applied : bool) (q : Request) (w : World) :
  let o := serveThrowing svc thr applied q w in
  if end_thrown o then
    sent (end_trace o) = [] ∧ passed (end_trace o) = [] ∧
    resp_body (end_resp o) = None ∧ resp_next (end_resp o) = None
  else
    (∃ b, sent (end_trace o) = [b] ∧ passed (end_trace o) = [] ∧
          resp_body (end_resp o) = Some b ∧ resp_next (end_resp o) = None) ∨
    (∃ e, sent (end_trace o) = [] ∧ passed (end_trace o) = [e] ∧
          resp_body (end_resp o) = None ∧ resp_next (end_resp o) = Some e).
Proof.
  intros o. subst o.
  throw_cases thr; destruct q as [req | req | auth | auth | auth];
    throwing_paths; eauto 10.
Qed.

(** X2: a request that is answered with an error has changed nothing,
    whichever call might throw: when an error was passed to [next], the
    world is as it was, no cookie is set or cleared, no user was created,
    no refresh-token record was persisted, and no call had thrown. *)
Theorem error_answer_changes_nothing (svc : Services) (thr : option nat)
    (applied : bool) (q : Request) (w : World) (e : HttpError) :
  resp_next (end_resp (serveThrowing svc thr applied q w)) = Some e →
  let o := serveThrowing svc thr applied q w in
  end_world o = w ∧
  resp_cookies (end_resp o) = [] ∧
  resp_cleared (end_resp o) = [] ∧
  created (end_trace o) = [] ∧
  persisted (end_trace o) = [] ∧
  end_thrown o = false.
Proof.
  intros Herr o. subst o. revert Herr.
  throw_cases thr; destruct q as [req | req | auth | auth | auth];
    throwing_paths; done.
Qed.

Lemma error_answer_changes_nothing_witness :
  let o := serveThrowing sampleServices (Some 2%nat) true
             (Login aliceWrongLogin) aliceWorld in
  end_world o = aliceWorld ∧
  resp_cookies (end_resp o) = [] ∧
  resp_cleared (end_resp o) = [] ∧
  created (end_trace o) = [] ∧
  persisted (end_trace o) = [] ∧
  end_thrown o = false.
Proof.
  apply (error_answer_changes_nothing sampleServices (Some 2%nat) true
           (Login aliceWrongLogin) aliceWorld
           (createHttpError 400 "Email and password not match!")).
  vm_compute. reflexivity.
Defined.

(** X5: only [register] changes the user directory, and by at most one
    user: login, self, refresh and logout leave the directory as it was,
    whichever call might throw.  A registration that succeeds has added
    one user at the end; one that does not succeed has added none, unless
    a call threw once [createUser] was under way. *)
Theorem directory_changed_only_by_register (svc : Services)
    (thr : option nat) (applied : bool) (q : Request) (w : World) :
  let o := serveThrowing svc thr applied q w in
  match q with
  | Register req =>
      if succeeded (end_resp o)
      then ∃ u, created (end_trace o) = [u] ∧
                users (end_world o) = (users w ++ [u])%list
      else users (end_world o) = users w ∨
           (end_thrown o = true ∧
            ∃ u, users (end_world o) = (users w ++ [u])%list)
  | _ => users (end_world o) = users w
  end.
Proof.
  intros o. subst o.
  throw_cases thr; destruct q as [req | req | auth | auth | auth];
    throwing_paths; try destruct applied; simpl; eauto;
    by destruct (auth_id auth).
Qed.

(** Which runs of the successful paths are cut short. *)
Lemma register_thrown svc thr applied w req path link :
  cur_validation req = [] →
  truthy (cur_file_path req) = Some path →
  truthy (upload svc path ≫= url) = Some link →
  end_thrown (serveThrowing svc thr applied (Register req) w) =
    negb (returnsFirst 6 thr).
Proof.
  intros Hv Hf Hl. unfold serveThrowing. simpl.
  unfold AuthController.register. rewrite Hv.
  throw_cases thr; simpl; rewrite ?Hf; simpl; rewrite ?Hl; done.
Qed.


Lemma refresh_thrown svc thr applied w auth u :
  findById (auth_sub auth) w = Some u →
  end_thrown (serveThrowing svc thr applied (Refresh auth) w) =
    negb (returnsFirst 6 thr).
Proof.
  intros Hu. unfold serveThrowing.
  throw_cases thr; simpl; rewrite ?Hu; done.
Qed.

(** X8: a registration succeeds exactly when its validation reports
    nothing, it carries a non-empty image path, the image storage answers
    with a non-empty url, and none of its six calls to collaborators
    (hashing, upload, [createUser], signing the access token,
    [persistRefreshToken], signing the refresh token) throws or rejects.
    The controller itself looks at nothing else. *)
Theorem register_succeeds_iff_returned (svc : Services) (thr : option nat)
    (applied : bool) (w : World) (req : CreateUserRequest) :
  succeeded (end_resp (serveThrowing svc thr applied (Register req) w))
    = true ↔
  cur_validation req = [] ∧
  (∃ path link, truthy (cur_file_path req) = Some path ∧
                truthy (upload svc path ≫= url) = Some link) ∧
  returnsFirst 6 thr = true.
Proof.
  split.
  - intros Hok.
    destruct (end_thrown (serveThrowing svc thr applied (Register req) w))
      eqn:Hthr.
    { by rewrite (thrown_not_succeeded _ _ _ _ _ Hthr) in Hok. }
    destruct (serveThrowing_returned _ _ _ _ _ Hthr) as (_ & Hresp & _).
    rewrite Hresp in Hok.
    destruct (register_succeeded_inv svc w req Hok)
      as (path & link & Hv & Hf & Hl).
    rewrite (register_thrown _ _ _ _ _ _ _ Hv Hf Hl) in Hthr.
    apply negb_false_iff in Hthr. eauto 10.
  - intros (Hv & (path & link & Hf & Hl) & Hret).
    assert (Hthr : end_thrown
                     (serveThrowing svc thr applied (Register req) w) = false)
      by (by rewrite (register_thrown _ _ _ _ _ _ _ Hv Hf Hl), Hret).
    destruct (serveThrowing_returned _ _ _ _ _ Hthr) as (_ & -> & _).
    by rewrite (register_run svc w req path link Hv Hf Hl).
Qed.


(** X11: the handler of refresh succeeds exactly when the directory has a
    user for the [sub] of the presented identity and none of its six
    calls to collaborators (signing the access token, [findById],
    [persistRefreshToken], [deleteRefreshToken], signing the refresh
    token, the logger) throws or rejects; whether the presented record is
    in the store plays no part. *)
Theorem refresh_succeeds_iff_returned (svc : Services) (thr : option nat)
    (applied : bool) (w : World) (auth : Auth) :
  succeeded (end_resp (serveThrowing svc thr applied (Refresh auth) w))
    = true ↔
  is_Some (findById (auth_sub auth) w) ∧ returnsFirst 6 thr = true.
Proof.
  split.
  - intros Hok.
    destruct (end_thrown (serveThrowing svc thr applied (Refresh auth) w))
      eqn:Hthr.
    { by rewrite (thrown_not_succeeded _ _ _ _ _ Hthr) in Hok. }
    destruct (serveThrowing_returned _ _ _ _ _ Hthr) as (_ & Hresp & _).
    rewrite Hresp in Hok.
    destruct (refresh_succeeded_inv svc w auth Hok) as [u Hu].
    rewrite (refresh_thrown _ _ _ _ _ _ Hu) in Hthr.
    apply negb_false_iff in Hthr. split; [by exists u | done].
  - intros [[u Hu] Hret].
    assert (Hthr : end_thrown
                     (serveThrowing svc thr applied (Refresh auth) w) = false)
      by (by rewrite (refresh_thrown _ _ _ _ _ _ Hu), Hret).
    destruct (serveThrowing_returned _ _ _ _ _ Hthr) as (_ & -> & _).
    by rewrite (refresh_run svc w auth u Hu).
Qed.

(** What [deleteRefreshToken] does to the presented record. *)
Lemma deleteRefreshToken_presented w auth :
  match auth_id auth with
  | Some id =>
      match findRefreshToken id w with
      | Some _ =>
          findRefreshToken id (deleteRefreshToken (auth_id auth) w) = None
      | None =>
          refreshTokens (deleteRefreshToken (auth_id auth) w) =
          refreshTokens w
      end
  | None => True
  end.
Proof.
  destruct (auth_id auth) as [id |]; simpl; [| done].
  unfold findRefreshToken. simpl.
  destruct (refreshTokens w !! id) eqn:Hid.
  - apply lookup_delete_eq.
  - by apply delete_id.
Qed.

(** X13: logout succeeds whenever its two calls to collaborators,
    [deleteRefreshToken] and the logger, return: for every identity,
    whether or not its record exists, the answer is then the success body
    with both cookies cleared; when the presented id has a record it is
    gone, and when it has none the store is left exactly as it was.  When
    the deletion rejects, or the logger throws after it, the request gets
    no answer and no cookie is cleared; in the second case the record is
    deleted all the same.  The directory is untouched throughout. *)
Theorem logout_succeeds_unless_thrown (svc : Services) (thr : option nat)
    (applied : bool) (w : World) (auth : Auth) :
  let o := serveThrowing svc thr applied (Logout auth) w in
  users (end_world o) = users w ∧
  match thr with
  | Some 0%nat =>
      end_thrown o = true ∧
      end_resp o = freshResponse ∧
      end_world o = (if applied then deleteRefreshToken (auth_id auth) w
                     else w)
  | Some 1%nat =>
      end_thrown o = true ∧
      end_resp o = freshResponse ∧
      refreshTokens (end_world o) =
        refreshTokens (deleteRefreshToken (auth_id auth) w)
  | _ =>
      end_thrown o = false ∧
      end_resp o = loggedOut ∧
      refreshTokens (end_world o) =
        refreshTokens (deleteRefreshToken (auth_id auth) w) ∧
      match auth_id auth with
      | Some id =>
          match findRefreshToken id w with
          | Some _ => findRefreshToken id (end_world o) = None
          | None => refreshTokens (end_world o) = refreshTokens w
          end
      | None => True
      end
  end.
Proof.
  intros o. subst o. unfold serveThrowing.
  pose proof (deleteRefreshToken_presented w auth) as Hdel.
  destruct thr as [[| [| n]] |]; simpl.
  - split; [| done]. destruct applied; [| done]. by destruct (auth_id auth).
  - split; [destruct applied; by destruct (auth_id auth) |].
    split_and!; [done | done |]. by destruct applied.
  - split_and!; [by destruct (auth_id auth) | done | done | done
                | exact Hdel].
  - split_and!; [by destruct (auth_id auth) | done | done | done
                | exact Hdel].
Qed.



(** X26: when [deleteRefreshToken] rejects during a refresh without
    having deleted, the record that the handler has just persisted stays
    in the store next to the presented one, which is still valid; no
    refresh token is signed, no cookie is set and the request gets no
    answer, so no token for the new record ever reaches a client. *)
Theorem refresh_rejected_delete_keeps_both (svc : Services) (w : World)
    (auth : Auth) (old : string) (rec : RefreshToken) (u : User) :
  wfStore w →
  auth_id auth = Some old →
  findRefreshToken old w = Some rec →
  findById (auth_sub auth) w = Some u →
  let o := serveThrowing svc (Some 3%nat) false (Refresh auth) w in
  let new := (persistRefreshToken u w).2 in
  end_thrown o = true ∧
  persisted (end_trace o) = [new] ∧
  issuedIn w (end_world o) new ∧
  findRefreshToken old (end_world o) = Some rec ∧
  size (refreshTokens (end_world o)) = S (size (refreshTokens w)) ∧
  refreshSigned (end_trace o) = [] ∧
  sent (end_trace o) = [] ∧
  passed (end_trace o) = [] ∧
  end_resp o = freshResponse.
Proof.
  intros Hwf Hid Hold Hu o new. subst o new. unfold serveThrowing. simpl.
  rewrite Hu. simpl.
  pose proof (fresh_id_unused w Hwf) as Hfresh.
  unfold issuedIn, findRefreshToken in *. simpl.
  split_and!; try done.
  - apply lookup_insert_eq.
  - rewrite lookup_insert_ne; [done |]. intros <-. congruence.
  - by apply map_size_insert_None.
Qed.

Lemma refresh_rejected_delete_keeps_both_witness :
  let o := serveThrowing sampleServices (Some 3%nat) false
             (Refresh aliceAuth) aliceWorld in
  let new := mkRefreshToken "1" "0" 31536000000 in
  end_thrown o = true ∧
  persisted (end_trace o) = [new] ∧
  issuedIn aliceWorld (end_world o) new ∧
  findRefreshToken "0" (end_world o) =
    Some (mkRefreshToken "0" "0" 31536000000) ∧
  size (refreshTokens (end_world o)) = S (size (refreshTokens aliceWorld)) ∧
  refreshSigned (end_trace o) = [] ∧
  sent (end_trace o) = [] ∧
  passed (end_trace o) = [] ∧
  end_resp o = freshResponse.
Proof.
  apply (refresh_rejected_delete_keeps_both sampleServices aliceWorld
           aliceAuth "0" (mkRefreshToken "0" "0" 31536000000) alice).
  - exact aliceWorld_wf.
  - reflexivity.
  - reflexivity.
  - reflexivity.
Defined.
